(** * TInstaller: the update-orchestration engine of [server.py]

    A shallow embedding of the version model, the catalog store, the source
    resolver, the download pipeline, the filename matcher and the download
    steps of the wizards, followed by the properties proved about them.

    Python strings are sequences of Unicode code points; a code point is an
    [N] and a string a [list N].  The two tables of the Unicode database the
    code consults through [re] and [str] (decimal digits for [\d] and [int],
    white space for [strip] and [split]) are written out; [str.lower], whose
    table is large and context dependent, goes through the environment. *)

From Stdlib Require Import NArith ZArith List Bool Ascii String Strings.Byte Lia.
From Stdlib Require Import Sorting.Sorted Sorting.Permutation.
From Stdlib Require DecimalFacts DecimalPos DecimalN.
From stdpp Require Import base option list gmap.

Local Open Scope N_scope.

(** ** Strings *)

Abbreviation char := N.
Abbreviation str := (list N).
Abbreviation bytes := (list Byte.byte).

(** An ASCII literal of the source as a Python string. *)
Definition lit (s : String.string) : str :=
  N_of_ascii <$> list_ascii_of_string s.
Arguments lit s%_string.

Fixpoint startswith (p s : str) : bool :=
  match p, s with
  | [], _ => true
  | _ :: _, [] => false
  | a :: p', b :: s' => (a =? b) && startswith p' s'
  end.

(** [a in b] on strings: [a] occurs in [b] as a contiguous block. *)
Fixpoint contains (needle hay : str) : bool :=
  startswith needle hay ||
  match hay with
  | [] => false
  | _ :: hay' => contains needle hay'
  end.

Fixpoint dropwhile (f : char -> bool) (s : str) : str :=
  match s with
  | [] => []
  | c :: s' => if f c then dropwhile f s' else s
  end.

Fixpoint takewhile (f : char -> bool) (s : str) : str :=
  match s with
  | [] => []
  | c :: s' => if f c then c :: takewhile f s' else []
  end.

(** [str.isspace] of one code point (Unicode white space). *)
Definition is_space (c : char) : bool :=
  ((9 <=? c) && (c <=? 13)) || ((28 <=? c) && (c <=? 32)) ||
  (c =? 133) || (c =? 160) || (c =? 5760) ||
  ((8192 <=? c) && (c <=? 8202)) || (c =? 8232) || (c =? 8233) ||
  (c =? 8239) || (c =? 8287) || (c =? 12288).

(** [s.strip()]. *)
Definition strip (s : str) : str :=
  rev (dropwhile is_space (rev (dropwhile is_space s))).

(** [s.split(sep)] for a one-character separator: the pieces between the
    separators, empty ones kept; never the empty list. *)
Fixpoint split_on (sep : char) (s : str) : list str :=
  match s with
  | [] => [[]]
  | c :: s' =>
      if c =? sep then [] :: split_on sep s'
      else match split_on sep s' with
           | [] => [[c]]
           | w :: ws => (c :: w) :: ws
           end
  end.

(** [s.split()]: the maximal runs of non-space characters. *)
Fixpoint words_from (s : str) (run : str) : list str :=
  match s with
  | [] => match run with [] => [] | _ => [run] end
  | c :: s' =>
      if is_space c
      then match run with [] => words_from s' [] | _ => run :: words_from s' [] end
      else words_from s' (run ++ [c])
  end.

Definition split_ws (s : str) : list str := words_from s [].

(** [s.rsplit(sep, 1)]: split at the last separator, if there is one. *)
Definition rsplit1 (sep : char) (s : str) : list str :=
  let tail := rev (takewhile (fun c => negb (c =? sep)) (rev s)) in
  if bool_decide (sep ∈ s)
  then [take (length s - length tail - 1)%nat s; tail]
  else [s].

Definition last_piece (l : list str) : str := List.last l [].
Definition first_piece (l : list str) : str := List.hd [] l.

Definition is_ascii_alpha (c : char) : bool :=
  ((65 <=? c) && (c <=? 90)) || ((97 <=? c) && (c <=? 122)).

Definition is_ascii_digit (c : char) : bool := (48 <=? c) && (c <=? 57).

(** The code points of the digit zero of every decimal script (general
    category Nd, Unicode 14); each starts a run of ten digits in order. *)
Definition nd_zeros : list N :=
  [48; 1632; 1776; 1984; 2406; 2534; 2662; 2790; 2918; 3046; 3174; 3302;
   3430; 3558; 3664; 3792; 3872; 4160; 4240; 6112; 6160; 6470; 6608; 6784;
   6800; 6992; 7088; 7232; 7248; 42528; 43216; 43264; 43472; 43504; 43600;
   44016; 65296; 66720; 68912; 69734; 69872; 69942; 70096; 70384; 70736;
   70864; 71248; 71360; 71472; 71904; 72016; 72784; 73040; 73120; 92768;
   92864; 93008; 120782; 120792; 120802; 120812; 120822; 123200; 123632;
   125264; 130032].

(** The value of a decimal digit, [None] for any other code point. *)
Definition decimal_value (c : char) : option N :=
  (fun z => c - z) <$> List.find (fun z => (z <=? c) && (c <=? z + 9)) nd_zeros.

(** What [\d] matches. *)
Definition is_decimal (c : char) : bool :=
  match decimal_value c with Some _ => true | None => false end.

(** ** File names *)

(** The surrogates U+DC80 to U+DCFF, which stand for single bytes that do
    not decode. *)
Definition is_escaped_byte (c : char) : bool := (56448 <=? c) && (c <=? 56575).

(** What the encoding of file names (UTF-8, with those escapes) encodes:
    every code point but the other surrogates. *)
Definition fs_encodable (c : char) : bool :=
  (c <? 55296) || is_escaped_byte c || ((57343 <? c) && (c <=? 1114111)).

(** The bytes a code point takes in a file name. *)
Definition utf8_size (c : char) : N :=
  if c <? 128 then 1
  else if c <? 2048 then 2
  else if is_escaped_byte c then 1
  else if c <? 65536 then 3
  else 4.

(** The longest file name, in bytes. *)
Definition NAME_MAX : N := 255.

(** The names of a directory itself and of its parent. *)
Definition is_dir_name (name : str) : bool :=
  bool_decide (name = []) || bool_decide (name = [46]) || bool_decide (name = [46; 46]).

Definition fits_name_max (name : str) : bool :=
  foldr (fun c n => utf8_size c + n) 0 name <=? NAME_MAX.

(** A name under which a directory holds a regular file: not empty, not [.]
    or [..], without a slash or a NUL, encodable, and at most [NAME_MAX]
    bytes long.  The directories of the model hold files only; under any
    other name no file of theirs is reached, and the calls that would
    create one raise (as [open] does for an empty name, for [..], for
    [sub/app.apk], for a name with a NUL or for a name that is too long).
    A name with a slash that still reaches a file (one that the path
    library shortens, as [./app.apk], or one that leaves the directory,
    absolute or through [..]) is beyond the model; it is taken to fail like
    the others, and the properties below are stated for plain names. *)
Definition plain_name (name : str) : bool :=
  negb (is_dir_name name) &&
  forallb (fun c => negb (c =? 47) && negb (c =? 0) && fs_encodable c) name &&
  fits_name_max name.

(** ** VersionModel *)

(** [re.sub(r"^[a-zA-Z]*\.?", "", s)]: the pattern is anchored, so it matches
    once, at the start: the leading ASCII letters and one dot after them. *)
Definition strip_prefix (s : str) : str :=
  match dropwhile is_ascii_alpha s with
  | c :: rest => if c =? 46 then rest else c :: rest
  | [] => []
  end.

(** [re.findall(r"\d+", s)]: the maximal runs of decimal digits, in order. *)
Fixpoint digit_runs (s : str) (run : str) : list str :=
  match s with
  | [] => match run with [] => [] | _ => [run] end
  | c :: s' =>
      if is_decimal c then digit_runs s' (run ++ [c])
      else match run with [] => digit_runs s' [] | _ => run :: digit_runs s' [] end
  end.

Definition findall_digits (s : str) : list str := digit_runs s [].

(** The number a run of decimal digits denotes. *)
Definition digits_value (p : str) : N :=
  fold_left (fun acc c => 10 * acc + default 0 (decimal_value c)) p 0.

(** The longest run of digits [int] converts: the interpreter's limit on
    integer string conversion, at its default. *)
Definition MAX_STR_DIGITS : N := 4300.

(** [int(p)] for a run of decimal digits; [None]: the run is over the limit
    and [int] raises [ValueError]. *)
Definition int_of_digits (p : str) : option N :=
  if MAX_STR_DIGITS <? N.of_nat (length p) then None else Some (digits_value p).

(** [parse_version]; [None]: it raises (one of the conversions does). *)
Definition parse_version (version_str : str) : option (list N) :=
  match version_str with
  | [] => Some [0]
  | _ =>
      let clean := strip_prefix version_str in
      let parts := findall_digits clean in
      match parts with
      | [] => Some [0]
      | _ => mapM int_of_digits parts
      end
  end.

(** Python's [<] on tuples of integers: the first differing position
    decides, a proper prefix is smaller. *)
Fixpoint tuple_lt (t1 t2 : list N) : bool :=
  match t1, t2 with
  | [], [] => false
  | [], _ :: _ => true
  | _ :: _, [] => false
  | x :: r1, y :: r2 => if x =? y then tuple_lt r1 r2 else x <? y
  end.

(** Python's [>] on tuples of integers. *)
Fixpoint tuple_gt (t1 t2 : list N) : bool :=
  match t1, t2 with
  | [], [] => false
  | [], _ :: _ => false
  | _ :: _, [] => true
  | x :: r1, y :: r2 => if x =? y then tuple_gt r1 r2 else y <? x
  end.

(** [compare_versions]; [None]: parsing one of the versions raises. *)
Definition compare_versions (v1 v2 : str) : option Z :=
  t1 ← parse_version v1;
  t2 ← parse_version v2;
  Some (if tuple_lt t1 t2 then (-1)%Z
        else if tuple_gt t1 t2 then 1%Z
        else 0%Z).

(** The string [parse_version_from_apk] returns when no version can be
    extracted (the Russian word for "unknown"), as code points. *)
Definition UNKNOWN : str :=
  [1085; 1077; 1080; 1079; 1074; 1077; 1089; 1090; 1085; 1086].

(** [parse_version_from_apk]: the first match of [versionName='([^']+)'] in
    what the package inspector printed. *)
Fixpoint search_versionName (s : str) : option str :=
  match s with
  | [] => None
  | _ :: s' =>
      if startswith (lit "versionName='") s then
        let rest := drop 13 s in
        let v := takewhile (fun c => negb (c =? 39)) rest in
        match v, drop (length v) rest with
        | _ :: _, _ :: _ => Some v
        | _, _ => search_versionName s'
        end
      else search_versionName s'
  end.

(** ** Catalog *)

(** One catalog entry, a JSON object read with [get]: a field is [None] when
    its key is absent.  (For [sourceUpdate], which the add wizard writes as
    null for manual entries, null reads as [None] too: the code only tests it
    for truth before use.) *)
Record AppRecord := {
  title : option str;
  description : option str;
  url : option str;
  sourceMethod : option str;
  sourceUpdate : option str;
  sourceFilter : option str;
  category : option str;
  ver : option str;
  lastUpdated : option str;
}.

(** The catalog document; [apps] is [None] when the key is absent. *)
Record Catalog := { apps : option (list AppRecord) }.

Definition set_ver_lastUpdated (new_ver timestamp : str) (a : AppRecord) : AppRecord :=
  {| title := title a; description := description a; url := url a;
     sourceMethod := sourceMethod a; sourceUpdate := sourceUpdate a;
     sourceFilter := sourceFilter a; category := category a;
     ver := Some new_ver; lastUpdated := Some timestamp |}.

(** Python's [<] on strings: code point by code point. *)
Definition str_lt (a b : str) : bool := tuple_lt a b.

(** [sorted(l, key=key)]: stable, and decided by [<] on the keys alone.  An
    element goes in front of the first one whose key is not smaller. *)
Fixpoint insert_by {A} (key : A -> str) (x : A) (l : list A) : list A :=
  match l with
  | [] => [x]
  | y :: l' => if str_lt (key y) (key x) then y :: insert_by key x l' else x :: l
  end.

Definition sorted {A} (key : A -> str) (l : list A) : list A :=
  foldr (insert_by key) [] l.

(** ** Collaborators *)

(** A release asset as the release API describes it. *)
Record Asset := {
  asset_name : option str;
  browser_download_url : option str;
  asset_url : option str;
}.

(** What a release document holds under ["assets"]: nothing, a list
    (GitHub), or an object with its own ["assets"] list (GitLab). *)
Inductive AssetsField :=
| AssetsAbsent
| AssetsList (l : list Asset)
| AssetsObject (inner : option (list Asset)).

(** How [subprocess.run(..., shell=True, timeout=30)] ended. *)
Inductive ShellOutcome :=
| Completed (stdout stderr : str)
| TimeoutExpired
| ShellError.

(** The Python runtime and the outside world as the code sees them. *)
Record Env := {
  (** [s.lower()] *)
  str_lower : str -> str;
  (** [re.search(pattern, s)] found a match; [None] when it raises *)
  re_search : str -> str -> option bool;
  (** the hex digest of a file's content *)
  sha256 : bytes -> str;
  (** standard output of [aapt dump badging]; [None] when the call raises *)
  aapt_badging : bytes -> option str;
  (** the body of a streamed GET ([follow_redirects] first); [None] on any
      error, a bad status included *)
  http_stream : bool -> str -> option bytes;
  (** the ["assets"] field of the JSON a GET returned; [None] on any error *)
  http_get_assets : str -> option AssetsField;
  (** [bot.get_file(file_id).file_path]; [None] when it raises *)
  tg_get_file : str -> option str;
  run_shell : str -> ShellOutcome;
  (** [datetime.utcnow()] formatted *)
  utcnow : str;
  SERVER_DOMAIN : str;
}.

Definition parse_version_from_apk (E : Env) (apk : bytes) : str :=
  match aapt_badging E apk with
  | Some stdout =>
      match search_versionName stdout with
      | Some v => v
      | None => UNKNOWN
      end
  | None => UNKNOWN
  end.

(** What [send_telegram] is called with; the constructor is the message
    template, its arguments the interpolated values. *)
Inductive Notice :=
| NoUrl (title : str)
| EmptyFile (title : str)
| Updated (title old_ver new_ver : str)
| Added (title new_ver : str)
| UpdateError (title : str)
| ConfigError.

(** The files the program owns: the catalog document, the packages under
    [APKS_DIR] by name, the live temporary directories (each with the file
    staged in it, if any), and the notifications sent so far. *)
Record World := {
  config : option Catalog;
  apks : gmap (list N) bytes;
  tmp : gmap nat (option (list N * bytes));
  sent : list Notice;
}.

Definition send_telegram (n : Notice) (w : World) : World :=
  {| config := config w; apks := apks w; tmp := tmp w; sent := sent w ++ [n] |}.

(** [tempfile.mkdtemp()]: a directory that did not exist. *)
Definition mkdtemp (w : World) : nat * World :=
  let d := fresh (dom (tmp w)) in
  (d, {| config := config w; apks := apks w; tmp := <[d := None]> (tmp w); sent := sent w |}).

(** [shutil.rmtree(d, ignore_errors=True)]. *)
Definition rmtree (d : nat) (w : World) : World :=
  {| config := config w; apks := apks w; tmp := delete d (tmp w); sent := sent w |}.

(** The staging directory [d] holding [body] under [filename]. *)
Definition with_temp_file (d : nat) (filename : str) (body : bytes) (w : World) : World :=
  {| config := config w; apks := apks w;
     tmp := <[d := Some (filename, body)]> (tmp w); sent := sent w |}.

(** [with open(temp_dir / filename, "wb") as f], the downloaded body written
    through it.  Under a plain name the file is created in the directory;
    under any other name [open] raises (see [plain_name]), and [None] stands
    for that. *)
Definition write_temp (d : nat) (filename : str) (body : bytes) (w : World) : option World :=
  if plain_name filename then Some (with_temp_file d filename body w) else None.

(** [shutil.move(temp_apk, apk_path)], reached only under a name [open] has
    accepted. *)
Definition move_to_apks (d : nat) (filename : str) (body : bytes) (w : World) : World :=
  {| config := config w; apks := <[filename := body]> (apks w);
     tmp := <[d := None]> (tmp w); sent := sent w |}.

(** [APKS_DIR] with [body] under [filename]. *)
Definition with_apk (filename : str) (body : bytes) (w : World) : World :=
  {| config := config w; apks := <[filename := body]> (apks w);
     tmp := tmp w; sent := sent w |}.

(** [shutil.copy2(src, APKS_DIR / target)] and the [os.chmod] after it, for
    a source named [src_name] that holds [body].  A plain target is written.
    For an empty target or [.] the path is [APKS_DIR] itself, and for [..]
    its parent: [copy2] copies into a directory under the name of the
    source, so the package lands in [APKS_DIR] under that name, or beside
    [APKS_DIR] where the model has no files.  Any other target raises;
    [None] stands for that. *)
Definition copy2 (target src_name : str) (body : bytes) (w : World) : option World :=
  if plain_name target then Some (with_apk target body w)
  else if bool_decide (target = []) || bool_decide (target = [46]) then
    if plain_name src_name then Some (with_apk src_name body w) else None
  else if bool_decide (target = [46; 46]) then
    if plain_name src_name then Some w else None
  else None.

(** ** CatalogStore *)

Definition load_apps (w : World) : option Catalog := config w.

Definition title_key (E : Env) (x : AppRecord) : str :=
  str_lower E (default [] (title x)).

(** [save_apps(data)]: rebinds [data["apps"]] to the sorted list (the caller
    sees it) and writes the document. *)
Definition save_apps (E : Env) (data : Catalog) (w : World) : Catalog * World :=
  let data' :=
    match apps data with
    | Some l => {| apps := Some (sorted (title_key E) l) |}
    | None => data
    end in
  (data', {| config := Some data'; apks := apks w; tmp := tmp w; sent := sent w |}).

(** ** SourceResolver *)

(** The loop over the assets of a release: the first asset whose name the
    filter matches decides, whatever [pick] finds in it. *)
Fixpoint first_asset (E : Env) (source_filter : str) (pick : Asset -> option str)
    (assets : list Asset) : option str :=
  match assets with
  | [] => None
  | asset :: rest =>
      match re_search E source_filter (default [] (asset_name asset)) with
      | None => None
      | Some true => pick asset
      | Some false => first_asset E source_filter pick rest
      end
  end.

(** The [custom] branch once the command has run. *)
Definition custom_url (outcome : ShellOutcome) : option str :=
  match outcome with
  | Completed out _ =>
      let stdout := strip out in
      let url := match stdout with [] => [] | _ => first_piece (split_on 10 stdout) end in
      match url with
      | [] => None
      | _ => if startswith (lit "http://") url || startswith (lit "https://") url
             then Some url else None
      end
  | TimeoutExpired => None
  | ShellError => None
  end.

Definition get_download_url (E : Env) (app : AppRecord) : option str :=
  let source_update := default [] (sourceUpdate app) in
  let source_method := default (lit "direct") (sourceMethod app) in
  let source_filter := default [] (sourceFilter app) in
  if bool_decide (source_method = lit "direct") then Some source_update
  else if bool_decide (source_method = lit "github_release") then
    match source_filter with
    | [] => None
    | _ =>
        match http_get_assets E source_update with
        | Some (AssetsList assets) => first_asset E source_filter browser_download_url assets
        | _ => None
        end
    end
  else if bool_decide (source_method = lit "gitlab_release") then
    match source_filter with
    | [] => None
    | _ =>
        match http_get_assets E source_update with
        | Some (AssetsObject (Some assets)) => first_asset E source_filter asset_url assets
        | _ => None
        end
    end
  else if bool_decide (source_method = lit "custom") then
    match source_update with
    | [] => None
    | _ => custom_url (run_shell E source_update)
    end
  else None.

(** ** DownloadPipeline *)

(** [Path(p).name]: the last component of a path, empty and [.] components
    aside. *)
Definition path_name (p : str) : str :=
  last_piece (filter (fun c => c <> [] /\ c <> lit ".") (split_on 47 p)).

(** The name the candidate is staged and installed under: the last
    component of the entry's [url], or the title with [.apk] when it has
    none. *)
Definition staging_filename (app_title target_url : str) : str :=
  match target_url with
  | [] => app_title ++ lit ".apk"
  | _ => path_name target_url
  end.

(** The last steps of a publish: move the staged file over the installed
    one, record version and time in [data], save, notify. *)
Definition publish (E : Env) (app_idx : nat) (app_title old_ver new_ver filename : str)
    (temp_dir : nat) (body : bytes) (data : Catalog) (w : World) : bool * Catalog * World :=
  let w1 := move_to_apks temp_dir filename body w in
  let timestamp := utcnow E in
  let data1 :=
    {| apps := alter (set_ver_lastUpdated new_ver timestamp) app_idx <$> apps data |} in
  let '(data2, w2) := save_apps E data1 w1 in
  let old_ver_display := match old_ver with [] => UNKNOWN | _ => old_ver end in
  let w3 :=
    match old_ver with
    | [] => send_telegram (Added app_title new_ver) w2
    | _ => send_telegram (Updated app_title old_ver_display new_ver) w2
    end in
  (true, data2, w3).

(** The body of the [try] of [update_single_app]; whatever raises in it (the
    request, [open] on the staging path, a version that does not parse)
    ends in the handler that reports an update error. *)
Definition download_and_decide (E : Env) (app_idx : nat) (app_title old_ver filename download_url : str)
    (temp_dir : nat) (data : Catalog) (w : World) : bool * Catalog * World :=
  match http_stream E true download_url with
  | None => (false, data, send_telegram (UpdateError app_title) w)
  | Some body =>
      match write_temp temp_dir filename body w with
      | None => (false, data, send_telegram (UpdateError app_title) w)
      | Some w1 =>
          match body with
          | [] => (false, data, send_telegram (EmptyFile app_title) w1)
          | _ =>
              let new_ver := parse_version_from_apk E body in
              match apks w1 !! filename with
              | Some installed =>
                  let old_hash := sha256 E installed in
                  let new_hash := sha256 E body in
                  if bool_decide (new_hash = old_hash) then (false, data, w1)
                  else
                    let old_ver_display :=
                      match old_ver with [] => UNKNOWN | _ => old_ver end in
                    match compare_versions new_ver old_ver_display with
                    | None => (false, data, send_telegram (UpdateError app_title) w1)
                    | Some cmp_result =>
                        if (cmp_result =? -1)%Z then (false, data, w1)
                        else if (cmp_result =? 0)%Z then (false, data, w1)
                        else publish E app_idx app_title old_ver new_ver filename temp_dir
                               body data w1
                    end
              | None =>
                  publish E app_idx app_title old_ver new_ver filename temp_dir body data w1
              end
          end
      end
  end.

(** [update_single_app(app_idx, data)]: the result, [data] as the caller
    sees it afterwards, and the files afterwards. *)
Definition update_single_app (E : Env) (app_idx : nat) (data : Catalog) (w : World)
    : bool * Catalog * World :=
  let all := default [] (apps data) in
  match all !! app_idx with
  | None => (false, data, w)
  | Some app =>
      let app_title := default (lit "Unknown") (title app) in
      let old_ver := default [] (ver app) in
      let target_url := default [] (url app) in
      match get_download_url E app with
      | None | Some [] => (false, data, send_telegram (NoUrl app_title) w)
      | Some download_url =>
          let filename := staging_filename app_title target_url in
          let '(temp_dir, w1) := mkdtemp w in
          let '(result, data', w2) :=
            download_and_decide E app_idx app_title old_ver filename download_url temp_dir data w1 in
          (result, data', rmtree temp_dir w2)
      end
  end.



(** ** Installed version and target file (the interactive updates) *)

Definition is_filename_char (c : char) : bool :=
  is_ascii_alpha c || is_ascii_digit c || (c =? 46) || (c =? 95) || (c =? 45).

Definition get_target_filename (app : AppRecord) : str :=
  match default [] (url app) with
  | [] =>
      ((fun c => if is_filename_char c then c else 95) <$> default (lit "unknown") (title app))
        ++ lit ".apk"
  | u => last_piece (rsplit1 47 u)
  end.

Definition get_installed_version (E : Env) (app : AppRecord) (w : World) : str :=
  let target_filename := get_target_filename app in
  match apks w !! target_filename with
  | Some installed =>
      let version := parse_version_from_apk E installed in
      if bool_decide (version <> UNKNOWN) then version
      else default UNKNOWN (ver app)
  | None => default UNKNOWN (ver app)
  end.

(** ** Fuzzy filename matching *)

(** The file name without its last extension. *)
Definition name_without_ext (filename : str) : str :=
  if bool_decide (46 ∈ filename) then first_piece (rsplit1 46 filename) else filename.

(** [re.sub(r"[_\-]", " ", s)]. *)
Definition dashes_to_spaces (s : str) : str :=
  (fun c => if (c =? 95) || (c =? 45) then 32 else c) <$> s.

Definition normalize_filename (E : Env) (filename : str) : str :=
  str_lower E (dashes_to_spaces (name_without_ext filename)).

Definition words_of (s : str) : gset (list N) := list_to_set (split_ws s).

Definition title_matches (E : Env) (normalized : str) (app : AppRecord) : bool :=
  let t := str_lower E (default [] (title app)) in
  if contains t normalized || contains normalized t then true
  else bool_decide (words_of t ∩ words_of normalized ≠ ∅).

Fixpoint matches_from (E : Env) (normalized : str) (i : nat) (l : list AppRecord) : list nat :=
  match l with
  | [] => []
  | app :: rest =>
      if title_matches E normalized app
      then i :: matches_from E normalized (S i) rest
      else matches_from E normalized (S i) rest
  end.

Definition find_app_by_filename (E : Env) (filename : str) (l : list AppRecord) : list nat :=
  matches_from E (normalize_filename E filename) 0 l.

(** ** The conversation state and the download steps of the wizards *)

(** The values [addapp_step] and [updateapp_step] take (1, 1.2, 1.5, 2, 3,
    4, 4.1, 5, 6). *)
Inductive Step :=
| Step1 | Step1_2 | Step1_5 | Step2 | Step3 | Step4 | Step4_1 | Step5 | Step6.

(** [os.path.join(temp_dir, name)]: a staged file is named by its temporary
    directory and its name in it. *)
Abbreviation temp_path := (nat * list N)%type.

(** The field bag of the add wizard ([addapp_data]); [None]: key absent. *)
Record AddappData := {
  ad_temp_url : option str;
  ad_temp_apk_path : option temp_path;
  ad_version : option str;
  ad_source_method : option str;
  ad_title : option str;
  ad_description : option str;
  ad_category : option str;
  ad_source_update : option str;
}.

(** The field bag of the update wizard ([updateapp_data]). *)
Record UpdateappData := {
  up_temp_url : option str;
  up_temp_apk_path : option temp_path;
  up_version : option str;
  up_file_name : option str;
}.

(** [context.user_data], the keys the functions below read or write. *)
Record UserData := {
  addapp_step : option Step;
  addapp_data : option AddappData;
  removeapp_step : option Step;
  updateapp_step : option Step;
  updateapp_data : option UpdateappData;
  confirm_app_idx : option nat;
  temp_apk_path : option temp_path;
  file_name : option str;
  new_version : option str;
}.

(** [context.user_data.clear()]. *)
Definition cleared : UserData :=
  {| addapp_step := None; addapp_data := None; removeapp_step := None;
     updateapp_step := None; updateapp_data := None; confirm_app_idx := None;
     temp_apk_path := None; file_name := None; new_version := None |}.

Definition no_addapp_data : AddappData :=
  {| ad_temp_url := None; ad_temp_apk_path := None; ad_version := None;
     ad_source_method := None; ad_title := None; ad_description := None;
     ad_category := None; ad_source_update := None |}.

Record Document := {
  doc_file_name : str;
  doc_file_size : option N;
  doc_file_id : str;
}.

(** An incoming message: an uploaded document or a text. *)
Record Message := {
  document : option Document;
  text : option str;
}.

Definition endswith (suffix s : str) : bool := startswith (rev suffix) (rev s).

Definition set_addapp (step : Step) (data : AddappData) (ud : UserData) : UserData :=
  {| addapp_step := Some step; addapp_data := Some data;
     removeapp_step := removeapp_step ud; updateapp_step := updateapp_step ud;
     updateapp_data := updateapp_data ud; confirm_app_idx := confirm_app_idx ud;
     temp_apk_path := temp_apk_path ud; file_name := file_name ud;
     new_version := new_version ud |}.

(** What step 1 stores once a package is staged. *)
Definition staged (data : AddappData) (p : temp_path) (version : str) : AddappData :=
  {| ad_temp_url := ad_temp_url data; ad_temp_apk_path := Some p;
     ad_version := Some version; ad_source_method := Some (lit "manual");
     ad_title := ad_title data; ad_description := ad_description data;
     ad_category := ad_category data; ad_source_update := ad_source_update data |}.

Definition with_temp_url (data : AddappData) (u : str) : AddappData :=
  {| ad_temp_url := Some u; ad_temp_apk_path := ad_temp_apk_path data;
     ad_version := ad_version data; ad_source_method := ad_source_method data;
     ad_title := ad_title data; ad_description := ad_description data;
     ad_category := ad_category data; ad_source_update := ad_source_update data |}.


Definition MAX_UPLOAD : N := 50 * 1024 * 1024.

(** Step 1 of [addapp_handle_input], an uploaded document. *)
Definition addapp_step1_document (E : Env) (doc : Document) (data : AddappData)
    (ud : UserData) (w : World) : UserData * World :=
  let name := doc_file_name doc in
  if negb (endswith (lit ".apk") (str_lower E name)) then (ud, w)
  else if MAX_UPLOAD <? default 0 (doc_file_size doc) then (ud, w)
  else
    let '(temp_dir, w1) := mkdtemp w in
    match tg_get_file E (doc_file_id doc) with
    | None => (cleared, w1)
    | Some file_url =>
        match http_stream E false file_url with
        | None => (cleared, w1)
        | Some body =>
            match write_temp temp_dir name body w1 with
            | None => (cleared, w1)
            | Some w2 =>
                let version := parse_version_from_apk E body in
                (set_addapp Step2 (staged data (temp_dir, name) version) ud, w2)
            end
        end
    end.

(** The name a linked package is staged under: the last segment of the
    link when it ends in [.apk], else [temp.apk]. *)
Definition link_filename (E : Env) (u : str) : str :=
  let filename := last_piece (rsplit1 47 u) in
  if endswith (lit ".apk") (str_lower E filename) then filename else lit "temp.apk".

(** Step 1 of [addapp_handle_input], a text: a link to download from. *)
Definition addapp_step1_text (E : Env) (t : str) (data : AddappData)
    (ud : UserData) (w : World) : UserData * World :=
  let u := strip t in
  if negb (startswith (lit "http://") u || startswith (lit "https://") u) then (ud, w)
  else
    let data1 := with_temp_url data u in
    let ud1 := set_addapp Step1_5 data1 ud in
    let '(temp_dir, w1) := mkdtemp w in
    let filename := link_filename E u in
    match http_stream E false u with
    | None => (cleared, rmtree temp_dir w1)
    | Some body =>
        match write_temp temp_dir filename body w1 with
        | None => (cleared, rmtree temp_dir w1)
        | Some w2 =>
            match body with
            | [] => (cleared, rmtree temp_dir w2)
            | _ =>
                let version := parse_version_from_apk E body in
                (set_addapp Step2 (staged data1 (temp_dir, filename) version) ud1, w2)
            end
        end
    end.

(** The block [if step == 1:] of [addapp_handle_input]. *)
Definition addapp_step1 (E : Env) (msg : Message) (ud : UserData) (w : World)
    : UserData * World :=
  let data := default no_addapp_data (addapp_data ud) in
  match document msg with
  | Some doc => addapp_step1_document E doc data ud w
  | None =>
      match text msg with
      | None | Some [] => (ud, w)
      | Some t => addapp_step1_text E t data ud w
      end
  end.


(** The file a staged path names, if it is there. *)
Definition read_temp (p : temp_path) (w : World) : option bytes :=
  match tmp w !! p.1 with
  | Some (Some (name, body)) => if bool_decide (name = p.2) then Some body else None
  | _ => None
  end.

Definition new_app_record (E : Env) (data : AddappData) (app_title version : str) : AppRecord :=
  {| title := Some app_title;
     description := Some (default [] (ad_description data));
     url := Some (match SERVER_DOMAIN E with
                  | [] => lit "/apks/" ++ app_title ++ lit ".apk"
                  | dom => lit "http://" ++ dom ++ lit "/apks/" ++ app_title ++ lit ".apk"
                  end);
     sourceMethod := Some (default (lit "manual") (ad_source_method data));
     sourceUpdate := if bool_decide (ad_source_method data = Some (lit "direct"))
                     then ad_source_update data else None;
     sourceFilter := None;
     category := Some (default (lit "Uncategorized") (ad_category data));
     ver := Some version;
     lastUpdated := Some (utcnow E) |}.

(** [finalize_addapp]: every failure ends in the handler that clears the
    conversation state. *)
Definition finalize_addapp (E : Env) (data : AddappData) (w : World) : UserData * World :=
  match ad_title data, ad_version data, ad_temp_apk_path data with
  | Some app_title, Some version, Some p =>
      match read_temp p w with
      | None => (cleared, w)
      | Some body =>
          match copy2 (app_title ++ lit ".apk") p.2 body w with
          | None => (cleared, w)
          | Some w1 =>
              match load_apps w1 with
              | Some {| apps := Some l |} =>
                  let apps_data :=
                    {| apps := Some (l ++ [new_app_record E data app_title version]) |} in
                  let '(_, w2) := save_apps E apps_data w1 in
                  (cleared, rmtree p.1 w2)
              | _ => (cleared, w1)
              end
          end
      end
  | _, _, _ => (cleared, w)
  end.

(** [do_update]: the publish of the interactive path.  [None]: an exception
    leaves the function (the catalog does not load, or the index is past
    the end); what raises inside its [try] is reported and nothing more is
    done. *)
Definition do_update (E : Env) (app_idx : nat) (p : temp_path) (new_ver old_version : str)
    (ud : UserData) (w : World) : option (UserData * World) :=
  match load_apps w with
  | None => None
  | Some data =>
      match default [] (apps data) !! app_idx with
      | None => None
      | Some app =>
          let app_title := default (lit "Unknown") (title app) in
          match read_temp p w with
          | None => Some (ud, w)
          | Some body =>
              match copy2 (get_target_filename app) p.2 body w with
              | None => Some (ud, w)
              | Some w1 =>
                  let data1 :=
                    {| apps := alter (set_ver_lastUpdated new_ver (utcnow E)) app_idx
                                 <$> apps data |} in
                  let '(_, w2) := save_apps E data1 w1 in
                  Some (cleared,
                        send_telegram (Updated app_title old_version new_ver) (rmtree p.1 w2))
              end
          end
      end
  end.

(** [process_update]: the decision of the interactive path; a candidate that
    is not newer waits for the operator's confirmation.  [None]: an
    exception leaves the function (the catalog does not load, or a version
    does not parse), with nothing changed. *)
Definition process_update (E : Env) (app_idx : nat) (p : temp_path) (name new_ver : str)
    (ud : UserData) (w : World) : option (UserData * World) :=
  match load_apps w with
  | None => None
  | Some data =>
      match default [] (apps data) !! app_idx with
      | None => Some (ud, w)
      | Some app =>
          let old_version := get_installed_version E app w in
          match compare_versions new_ver old_version with
          | None => None
          | Some cmp_result =>
              if (cmp_result <=? 0)%Z then
                Some ({| addapp_step := addapp_step ud; addapp_data := addapp_data ud;
                         removeapp_step := removeapp_step ud;
                         updateapp_step := updateapp_step ud;
                         updateapp_data := updateapp_data ud; confirm_app_idx := Some app_idx;
                         temp_apk_path := Some p; file_name := Some name;
                         new_version := Some new_ver |}, w)
              else do_update E app_idx p new_ver old_version ud w
          end
      end
  end.

(** ** The download endpoint *)

Inductive Response :=
| Forbidden
| NotFound
| SendFile (download_name : str) (body : bytes).

(** [download_apk(filename)]: 403 for a name with [..], a slash or a
    backslash, or without the [.apk] ending; 404 for a file that is not
    there. *)
Definition download_apk (E : Env) (filename : str) (w : World) : Response :=
  if contains (lit "..") filename || contains [47] filename || contains [92] filename
  then Forbidden
  else if negb (endswith (lit ".apk") (str_lower E filename)) then Forbidden
  else match apks w !! filename with
       | None => NotFound
       | Some body => SendFile filename body
       end.

(** ** The add wizard, steps 2 to 6 *)

Definition is_title_char (c : char) : bool :=
  is_ascii_alpha c || is_ascii_digit c || (c =? 95) || (c =? 45).

(** [re.match(r"^[a-zA-Z0-9_-]+$", s)]: one or more of the characters, up to
    the end of [s] or up to a line feed that ends [s]. *)
Definition title_re_match (s : str) : bool :=
  let body :=
    match rev s with
    | c :: r => if c =? 10 then rev r else s
    | [] => s
    end in
  match body with
  | [] => false
  | _ => forallb is_title_char body
  end.

(** The button of step 4 that asks for a new category. *)
Definition NEW_CATEGORY : str :=
  [10133; 32; 1053; 1086; 1074; 1072; 1103; 32; 1082; 1072; 1090; 1077; 1075; 1086;
   1088; 1080; 1103].

Definition with_title (data : AddappData) (t : str) : AddappData :=
  {| ad_temp_url := ad_temp_url data; ad_temp_apk_path := ad_temp_apk_path data;
     ad_version := ad_version data; ad_source_method := ad_source_method data;
     ad_title := Some t; ad_description := ad_description data;
     ad_category := ad_category data; ad_source_update := ad_source_update data |}.

Definition with_description (data : AddappData) (d : str) : AddappData :=
  {| ad_temp_url := ad_temp_url data; ad_temp_apk_path := ad_temp_apk_path data;
     ad_version := ad_version data; ad_source_method := ad_source_method data;
     ad_title := ad_title data; ad_description := Some d;
     ad_category := ad_category data; ad_source_update := ad_source_update data |}.

Definition with_category (data : AddappData) (c : str) : AddappData :=
  {| ad_temp_url := ad_temp_url data; ad_temp_apk_path := ad_temp_apk_path data;
     ad_version := ad_version data; ad_source_method := ad_source_method data;
     ad_title := ad_title data; ad_description := ad_description data;
     ad_category := Some c; ad_source_update := ad_source_update data |}.

Definition with_source_method (data : AddappData) (m : str) : AddappData :=
  {| ad_temp_url := ad_temp_url data; ad_temp_apk_path := ad_temp_apk_path data;
     ad_version := ad_version data; ad_source_method := Some m;
     ad_title := ad_title data; ad_description := ad_description data;
     ad_category := ad_category data; ad_source_update := ad_source_update data |}.

Definition with_source_update (data : AddappData) (u : str) : AddappData :=
  {| ad_temp_url := ad_temp_url data; ad_temp_apk_path := ad_temp_apk_path data;
     ad_version := ad_version data; ad_source_method := ad_source_method data;
     ad_title := ad_title data; ad_description := ad_description data;
     ad_category := ad_category data; ad_source_update := Some u |}.

(** [context.user_data["addapp_step"] = step], the field bag as it is. *)
Definition set_addapp_step (step : Step) (ud : UserData) : UserData :=
  {| addapp_step := Some step; addapp_data := addapp_data ud;
     removeapp_step := removeapp_step ud; updateapp_step := updateapp_step ud;
     updateapp_data := updateapp_data ud; confirm_app_idx := confirm_app_idx ud;
     temp_apk_path := temp_apk_path ud; file_name := file_name ud;
     new_version := new_version ud |}.

(** A step that reads a text: [update.message.text.strip()], then [k]; a
    message without text raises before anything is changed. *)
Definition on_text (msg : Message) (ud : UserData) (w : World)
    (k : str -> UserData * World) : UserData * World :=
  match text msg with
  | None => (ud, w)
  | Some t => k (strip t)
  end.

(** [addapp_handle_input]: a rejected input returns with nothing changed
    (the operator is asked again). *)
Definition addapp_handle_input (E : Env) (is_admin : bool) (msg : Message)
    (ud : UserData) (w : World) : UserData * World :=
  if negb is_admin then (ud, w)
  else
    match addapp_step ud with
    | None => (ud, w)
    | Some step =>
        let data := default no_addapp_data (addapp_data ud) in
        match step with
        | Step1 => addapp_step1 E msg ud w
        | Step2 =>
            on_text msg ud w (fun app_title =>
              match app_title with
              | [] => (ud, w)
              | _ =>
                  if negb (title_re_match app_title) then (ud, w)
                  else (set_addapp Step3 (with_title data app_title) ud, w)
              end)
        | Step3 =>
            on_text msg ud w (fun d =>
              match d with
              | [] => (ud, w)
              | _ => (set_addapp Step4 (with_description data d) ud, w)
              end)
        | Step4 =>
            on_text msg ud w (fun c =>
              match c with
              | [] => (ud, w)
              | _ =>
                  if bool_decide (c = NEW_CATEGORY) then (set_addapp_step Step4_1 ud, w)
                  else (set_addapp Step5 (with_category data c) ud, w)
              end)
        | Step4_1 =>
            on_text msg ud w (fun c =>
              match c with
              | [] => (ud, w)
              | _ => (set_addapp Step5 (with_category data c) ud, w)
              end)
        | Step5 =>
            on_text msg ud w (fun t =>
              let method := str_lower E t in
              if bool_decide (method = lit "manual") then
                finalize_addapp E (with_source_method data method) w
              else if bool_decide (method = lit "direct") then
                (set_addapp Step6 (with_source_method data method) ud, w)
              else (ud, w))
        | Step6 =>
            on_text msg ud w (fun u =>
              if negb (startswith (lit "http://") u || startswith (lit "https://") u)
              then (ud, w)
              else finalize_addapp E (with_source_update data u) w)
        | _ => (ud, w)
        end
    end.

Definition doc_msg (d : Document) : Message := {| document := Some d; text := None |}.


(** ** The remove wizard *)

(** The buttons "cancel" and "delete", as code points. *)
Definition CANCEL_BTN : str := [10060; 32; 1054; 1090; 1084; 1077; 1085; 1072].
Definition DELETE_BTN : str := [9989; 32; 1059; 1076; 1072; 1083; 1080; 1090; 1100].

(** [context.user_data] with the key of the remove wizard that the record
    above does not have. *)
Record Session := {
  user_data : UserData;
  removeapp_app_idx : option nat;
}.

Definition session_cleared : Session :=
  {| user_data := cleared; removeapp_app_idx := None |}.

Definition set_removeapp_step (step : Step) (ud : UserData) : UserData :=
  {| addapp_step := addapp_step ud; addapp_data := addapp_data ud;
     removeapp_step := Some step; updateapp_step := updateapp_step ud;
     updateapp_data := updateapp_data ud; confirm_app_idx := confirm_app_idx ud;
     temp_apk_path := temp_apk_path ud; file_name := file_name ud;
     new_version := new_version ud |}.

(** The loop that looks a title up: the first entry whose title is [t]. *)
Fixpoint find_title (t : str) (i : nat) (l : list AppRecord) : option nat :=
  match l with
  | [] => None
  | app :: rest =>
      if bool_decide (default [] (title app) = t) then Some i
      else find_title t (S i) rest
  end.

(** [APKS_DIR] without the file [filename]. *)
Definition without_apk (filename : str) (w : World) : World :=
  {| config := config w; apks := delete filename (apks w); tmp := tmp w; sent := sent w |}.

(** [if target_path.exists(): os.remove(target_path)].  A plain name is
    removed when it is there.  For an empty name, [.] or [..] the path is a
    directory, which exists and which [os.remove] refuses; a name that is
    too long makes [exists] raise; [None] stands for both.  Under any other
    name (with a NUL, a character that does not encode, or a slash, see
    [plain_name]) no file of the directory is reached: [exists] is false and
    nothing is removed. *)
Definition remove_if_exists (filename : str) (w : World) : option World :=
  if plain_name filename then Some (without_apk filename w)
  else if is_dir_name filename || negb (fits_name_max filename) then None
  else Some w.


Definition removeapp_handle_input (E : Env) (is_admin : bool) (msg : Message)
    (s : Session) (w : World) : Session * World :=
  if negb is_admin then (s, w)
  else
    match removeapp_step (user_data s) with
    | None => (s, w)
    | Some step =>
        match text msg with
        | None => (s, w)
        | Some t0 =>
            let t := strip t0 in
            match step with
            | Step1 =>
                if bool_decide (t = CANCEL_BTN) then (session_cleared, w)
                else
                  match load_apps w with
                  | None => (session_cleared, w)
                  | Some data =>
                      match find_title t 0 (default [] (apps data)) with
                      | None => (s, w)
                      | Some app_idx =>
                          ({| user_data := set_removeapp_step Step2 (user_data s);
                              removeapp_app_idx := Some app_idx |}, w)
                      end
                  end
            | Step2 =>
                if bool_decide (t = CANCEL_BTN) then (session_cleared, w)
                else if bool_decide (t <> DELETE_BTN) then (s, w)
                else
                  match removeapp_app_idx s with
                  | None => (session_cleared, w)
                  | Some app_idx =>
                      match load_apps w with
                      | None => (session_cleared, w)
                      | Some data =>
                          let l := default [] (apps data) in
                          match l !! app_idx with
                          | None => (session_cleared, w)
                          | Some app =>
                              match remove_if_exists (get_target_filename app) w with
                              | None => (session_cleared, w)
                              | Some w1 =>
                                  let '(_, w2) :=
                                    save_apps E {| apps := Some (delete app_idx l) |} w1 in
                                  (session_cleared, w2)
                              end
                          end
                      end
                  end
            | _ => (s, w)
            end
        end
    end.

(** ** The buttons under an uploaded package *)

(** The callback data of the inline buttons this program makes: [cancel],
    [select_<i>] and [confirm_<i>]; anything else is [CbOther]. *)
Inductive Callback :=
| CbCancel
| CbSelect (app_idx : nat)
| CbConfirm (app_idx : nat)
| CbOther.

(** [not app]: an entry without any key. *)
Definition is_empty_record (a : AppRecord) : bool :=
  match title a, description a, url a, sourceMethod a, sourceUpdate a,
        sourceFilter a, category a, ver a, lastUpdated a with
  | None, None, None, None, None, None, None, None, None => true
  | _, _, _, _, _, _, _, _, _ => false
  end.

(** [handle_callback]: an exception that leaves [process_update] or
    [do_update] leaves the handler too, with nothing changed. *)
Definition handle_callback (E : Env) (is_admin : bool) (cb : Callback)
    (ud : UserData) (w : World) : UserData * World :=
  if negb is_admin then (ud, w)
  else
    match cb with
    | CbCancel =>
        match temp_apk_path ud with
        | Some p => (cleared, rmtree p.1 w)
        | None => (ud, w)
        end
    | CbSelect app_idx =>
        match temp_apk_path ud with
        | None => (ud, w)
        | Some p =>
            match read_temp p w with
            | None => (ud, w)
            | Some _ =>
                default (ud, w)
                  (process_update E app_idx p (default (lit "unknown.apk") (file_name ud))
                     (default UNKNOWN (new_version ud)) ud w)
            end
        end
    | CbConfirm app_idx =>
        match temp_apk_path ud with
        | None => (ud, w)
        | Some p =>
            match read_temp p w with
            | None => (ud, w)
            | Some _ =>
                match load_apps w with
                | None => (ud, w)
                | Some data_apps =>
                    let old_version :=
                      match default [] (apps data_apps) !! app_idx with
                      | Some app =>
                          if is_empty_record app then lit "?"
                          else get_installed_version E app w
                      | None => lit "?"
                      end in
                    default (ud, w)
                      (do_update E app_idx p (default UNKNOWN (new_version ud)) old_version
                         ud w)
                end
            end
        end
    | CbOther => (ud, w)
    end.

(** ** An uploaded package outside the wizards *)

(** The keys [handle_document] leaves for the buttons when it cannot decide
    by itself. *)
Definition set_upload (p : temp_path) (name version : str) (ud : UserData) : UserData :=
  {| addapp_step := addapp_step ud; addapp_data := addapp_data ud;
     removeapp_step := removeapp_step ud; updateapp_step := updateapp_step ud;
     updateapp_data := updateapp_data ud; confirm_app_idx := confirm_app_idx ud;
     temp_apk_path := Some p; file_name := Some name; new_version := Some version |}.

(** [handle_document]: with a wizard active the message goes to that wizard
    (the handler of the update wizard is the parameter
    [updateapp_handle_input]); otherwise the package is staged and matched
    against the catalog.  Every exception after [mkdtemp] ([open] on the
    staging path and an exception that leaves [process_update] included)
    ends in the handler that removes the staging directory and leaves
    [user_data] as it is.  The key [matches], which is written for several
    matches and read nowhere, is left out. *)
Definition handle_document (E : Env)
    (updateapp_handle_input : Message -> UserData -> World -> UserData * World)
    (is_admin : bool) (msg : Message) (ud : UserData) (w : World) : UserData * World :=
  if negb is_admin then (ud, w)
  else
    match addapp_step ud with
    | Some _ => addapp_handle_input E is_admin msg ud w
    | None =>
        match updateapp_step ud with
        | Some _ => updateapp_handle_input msg ud w
        | None =>
            match document msg with
            | None => (ud, w)
            | Some doc =>
                let name := doc_file_name doc in
                if negb (endswith (lit ".apk") (str_lower E name)) then (ud, w)
                else if MAX_UPLOAD <? default 0 (doc_file_size doc) then (ud, w)
                else
                  let '(temp_dir, w1) := mkdtemp w in
                  match tg_get_file E (doc_file_id doc) with
                  | None => (ud, rmtree temp_dir w1)
                  | Some file_url =>
                      match http_stream E false file_url with
                      | None => (ud, rmtree temp_dir w1)
                      | Some body =>
                          match write_temp temp_dir name body w1 with
                          | None => (ud, rmtree temp_dir w1)
                          | Some w2 =>
                              let new_ver := parse_version_from_apk E body in
                              match load_apps w2 with
                              | None => (ud, rmtree temp_dir w2)
                              | Some data =>
                                  match find_app_by_filename E name
                                          (default [] (apps data)) with
                                  | [app_idx] =>
                                      default (ud, rmtree temp_dir w2)
                                        (process_update E app_idx (temp_dir, name) name
                                           new_ver ud w2)
                                  | _ => (set_upload (temp_dir, name) name new_ver ud, w2)
                                  end
                              end
                          end
                      end
                  end
            end
        end
    end.

(** ** Vocabulary of the properties *)

(** The lexicographic order on tuples, said without recursion: the tuples
    agree up to a position where the first is smaller, or the first is a
    proper prefix of the second. *)
Definition lex_lt (t1 t2 : list N) : Prop :=
  (exists p x y r1 r2, t1 = p ++ x :: r1 /\ t2 = p ++ y :: r2 /\ x < y) \/
  (exists y r, t2 = t1 ++ y :: r).

(** A version [parse_version] parses: after the prefix is taken off, no
    run of digits is longer than [int] converts. *)
Definition within_int_limit (v : str) : Prop :=
  Forall (fun p => N.of_nat (length p) <= MAX_STR_DIGITS) (findall_digits (strip_prefix v)).


(** [a] occurs in [b]. *)
Definition substring (a b : str) : Prop := exists pre post, b = pre ++ a ++ post.

(** [s.split("\n")[0]]. *)
Definition first_line (s : str) : str := first_piece (split_on 10 s).

Definition is_http (u : str) : bool :=
  startswith (lit "http://") u || startswith (lit "https://") u.

(** [str.lower] on strings of ASCII characters. *)
Definition ascii_lower (s : str) : str :=
  (fun c => if (65 <=? c) && (c <=? 90) then c + 32 else c) <$> s.

Definition lower_on_ascii (E : Env) : Prop :=
  forall s, Forall (fun c => c < 128) s -> str_lower E s = ascii_lower s.


(** An outcome of [update_single_app] that publishes: the candidate is
    installed under the canonical name, and the catalog saved holds the
    entries re-sorted, the published one with its new version and time. *)
Definition replaced (E : Env) (app_idx : nat) (app : AppRecord) (filename new_ver : str)
    (body : bytes) (data : Catalog) (w : World) (out : bool * Catalog * World) : Prop :=
  out.1.1 = true /\
  apks out.2 = <[filename := body]> (apks w) /\
  config out.2 = Some out.1.2 /\
  apps out.1.2 =
    Some (sorted (title_key E)
            (alter (set_ver_lastUpdated new_ver (utcnow E)) app_idx (default [] (apps data)))) /\
  set_ver_lastUpdated new_ver (utcnow E) app ∈ default [] (apps out.1.2).


(** A publish left its mark: an entry of that title at the new version. *)
Definition published_as (app_title : option str) (new_ver : str) (a : AppRecord) : Prop :=
  title a = app_title /\ ver a = Some new_ver.



(** The package file the scheduled publish of an entry writes. *)
Definition target_of (a : AppRecord) : str :=
  staging_filename (default (lit "Unknown") (title a)) (default [] (url a)).

(** ** Sample collaborators and records for the worked examples *)

Definition sample_env (shell : str -> ShellOutcome) (aapt : bytes -> option str)
    (http : bool -> str -> option bytes) : Env :=
  {| str_lower := ascii_lower;
     re_search := fun pattern s => Some (contains pattern s);
     sha256 := fun b => N_of_ascii <$> (ascii_of_byte <$> b);
     aapt_badging := aapt;
     http_stream := http;
     http_get_assets := fun _ => None;
     tg_get_file := fun file_id => Some (lit "https://api.telegram.org/file/" ++ file_id);
     run_shell := shell;
     utcnow := lit "2024-01-01T00:00:00Z";
     SERVER_DOMAIN := lit "example.org" |}.

Definition sample_app (t u method source v : option str) : AppRecord :=
  {| title := t; description := None; url := u; sourceMethod := method;
     sourceUpdate := source; sourceFilter := None; category := None;
     ver := v; lastUpdated := None |}.

Definition titled (t : str) : AppRecord := sample_app (Some t) None None None None.

Definition custom_app : AppRecord :=
  sample_app (Some (lit "demo")) None (Some (lit "custom")) (Some (lit "./latest.sh")) None.

(** A package inspector for the examples: the first byte of a package is
    the digit of its major version. *)
Definition sample_aapt (apk : bytes) : option str :=
  match apk with
  | b :: _ => Some (lit "versionName='" ++ [N_of_ascii (ascii_of_byte b)] ++ lit ".0'")
  | [] => None
  end.

(** A server that answers every download with [candidate]. *)
Definition serving (candidate : bytes) : Env :=
  sample_env (fun _ => ShellError) sample_aapt (fun _ _ => Some candidate).

(** An entry installed as [app.apk], updated from a direct link, that the
    catalog records at version [v]. *)
Definition store_app (v : str) : AppRecord :=
  sample_app (Some (lit "app")) (Some (lit "http://example.org/apks/app.apk"))
    (Some (lit "direct")) (Some (lit "http://src.example/app.apk")) (Some v).

Definition store_catalog (v : str) : Catalog := {| apps := Some [store_app v] |}.

(** The files of a server with that one entry, [installed] being the bytes
    of [app.apk]. *)
Definition store_world (v : str) (installed : bytes) : World :=
  {| config := Some (store_catalog v);
     apks := {[ lit "app.apk" := installed ]};
     tmp := ∅;
     sent := [] |}.

(** The field bag of an add wizard about to finalize a manual entry. *)
Definition ready_to_add (app_title version : str) (p : temp_path) : AddappData :=
  {| ad_temp_url := None; ad_temp_apk_path := Some p; ad_version := Some version;
     ad_source_method := Some (lit "manual"); ad_title := Some app_title;
     ad_description := Some (lit "added by hand"); ad_category := Some (lit "Tools");
     ad_source_update := None |}.


(** ** Rendering versions (for the round trip of the parser) *)

Fixpoint uint_chars (u : Decimal.uint) : str :=
  match u with
  | Decimal.Nil => []
  | Decimal.D0 u' => 48 :: uint_chars u'
  | Decimal.D1 u' => 49 :: uint_chars u'
  | Decimal.D2 u' => 50 :: uint_chars u'
  | Decimal.D3 u' => 51 :: uint_chars u'
  | Decimal.D4 u' => 52 :: uint_chars u'
  | Decimal.D5 u' => 53 :: uint_chars u'
  | Decimal.D6 u' => 54 :: uint_chars u'
  | Decimal.D7 u' => 55 :: uint_chars u'
  | Decimal.D8 u' => 56 :: uint_chars u'
  | Decimal.D9 u' => 57 :: uint_chars u'
  end.

(** [str(n)]: the decimal digits of a number, without leading zeros. *)
Definition decimal (n : N) : str := uint_chars (N.to_uint n).

(** [".".join(str(n) for n in t)]. *)
Fixpoint dotted (t : list N) : str :=
  match t with
  | [] => []
  | [n] => decimal n
  | n :: t' => decimal n ++ 46 :: dotted t'
  end.

(** Every component is written in no more digits than [int] converts. *)
Definition short_components (t : list N) : Prop :=
  Forall (fun n => N.of_nat (length (decimal n)) <= MAX_STR_DIGITS) t.

(** A release API for the examples: every request returns [doc]; the filter
    is matched as a plain substring. *)
Definition release_env (doc : AssetsField) : Env :=
  {| str_lower := ascii_lower;
     re_search := fun pattern s => Some (contains pattern s);
     sha256 := fun b => N_of_ascii <$> (ascii_of_byte <$> b);
     aapt_badging := sample_aapt;
     http_stream := fun _ _ => None;
     http_get_assets := fun _ => Some doc;
     tg_get_file := fun _ => None;
     run_shell := fun _ => ShellError;
     utcnow := lit "2024-01-01T00:00:00Z";
     SERVER_DOMAIN := lit "example.org" |}.

Definition sample_asset (name link : str) : Asset :=
  {| asset_name := Some name; browser_download_url := Some link; asset_url := None |}.

Definition github_app : AppRecord :=
  {| title := Some (lit "demo"); description := None; url := None;
     sourceMethod := Some (lit "github_release");
     sourceUpdate := Some (lit "https://api.github.com/repos/o/r/releases/latest");
     sourceFilter := Some (lit ".apk"); category := None; ver := None;
     lastUpdated := None |}.

(** * Properties *)

(** ** VersionModel *)

Example parse_version_plain : parse_version (lit "1.2.3") = Some [1; 2; 3].
Proof. reflexivity. Qed.
Example parse_version_v : parse_version (lit "v2.0") = Some [2; 0].
Proof. reflexivity. Qed.
Example parse_version_prefix : parse_version (lit "MatriX.5") = Some [5].
Proof. reflexivity. Qed.
Example parse_version_empty : parse_version [] = Some [0].
Proof. reflexivity. Qed.

Lemma tuple_lt_irrefl t : tuple_lt t t = false.
Proof.
  induction t as [|x t IH]; simpl; [reflexivity|].
  now rewrite N.eqb_refl.
Qed.

Lemma tuple_gt_lt t1 t2 : tuple_gt t1 t2 = tuple_lt t2 t1.
Proof.
  revert t2; induction t1 as [|x r1 IH]; intros [|y r2]; simpl; try reflexivity.
  rewrite (N.eqb_sym y x). destruct (x =? y); [apply IH | reflexivity].
Qed.

Lemma tuple_lt_asym t1 t2 : tuple_lt t1 t2 = true -> tuple_lt t2 t1 = false.
Proof.
  revert t2; induction t1 as [|x r1 IH]; intros [|y r2]; simpl; try congruence.
  rewrite (N.eqb_sym y x). destruct (N.eqb_spec x y) as [->|Hne].
  - apply IH.
  - intros H%N.ltb_lt. apply N.ltb_ge. lia.
Qed.

Lemma tuple_lt_trans t1 t2 t3 :
  tuple_lt t1 t2 = true -> tuple_lt t2 t3 = true -> tuple_lt t1 t3 = true.
Proof.
  revert t2 t3; induction t1 as [|x r1 IH]; intros [|y r2] [|z r3]; simpl; try congruence.
  destruct (N.eqb_spec x y) as [->|Hxy].
  - destruct (N.eqb_spec y z) as [->|Hyz]; [apply IH | tauto].
  - intros Hlt%N.ltb_lt. destruct (N.eqb_spec y z) as [->|Hyz].
    + intros _. destruct (N.eqb_spec x z); [lia | now apply N.ltb_lt].
    + intros Hlt'%N.ltb_lt. destruct (N.eqb_spec x z); [lia | apply N.ltb_lt; lia].
Qed.

Lemma tuple_lt_total t1 t2 :
  tuple_lt t1 t2 = false -> tuple_lt t2 t1 = false -> t1 = t2.
Proof.
  revert t2; induction t1 as [|x r1 IH]; intros [|y r2]; simpl; try congruence.
  rewrite (N.eqb_sym y x). destruct (N.eqb_spec x y) as [->|Hne].
  - intros H1 H2. f_equal. now apply IH.
  - intros H1%N.ltb_ge H2%N.ltb_ge. lia.
Qed.

Lemma tuple_lt_lex t1 t2 : tuple_lt t1 t2 = true <-> lex_lt t1 t2.
Proof.
  split.
  - revert t2; induction t1 as [|x r1 IH]; intros [|y r2]; simpl; try congruence.
    + intros _. right. now exists y, r2.
    + destruct (N.eqb_spec x y) as [->|Hne].
      * intros [(p & a & b & s1 & s2 & -> & -> & Hab)|(b & s & ->)]%IH.
        -- left. now exists (y :: p), a, b, s1, s2.
        -- right. now exists b, s.
      * intros Hlt%N.ltb_lt. left. now exists [], x, y, r1, r2.
  - intros [(p & a & b & s1 & s2 & -> & -> & Hab)|(b & s & ->)].
    + induction p as [|c p IH]; simpl.
      * destruct (N.eqb_spec a b); [lia | now apply N.ltb_lt].
      * now rewrite N.eqb_refl.
    + induction t1 as [|c t1 IH]; simpl; [reflexivity | now rewrite N.eqb_refl].
Qed.

(** *** Which versions parse *)

Lemma int_of_digits_Some p n : int_of_digits p = Some n -> n = digits_value p.
Proof. unfold int_of_digits. destruct (_ <? _); congruence. Qed.

Lemma int_of_digits_limit p :
  int_of_digits p = (if decide (N.of_nat (length p) <= MAX_STR_DIGITS)
                     then Some (digits_value p) else None).
Proof.
  unfold int_of_digits. destruct (N.ltb_spec MAX_STR_DIGITS (N.of_nat (length p)));
    destruct (decide _); try reflexivity; lia.
Qed.

Lemma mapM_int_of_digits parts :
  mapM int_of_digits parts =
    (if decide (Forall (fun p => N.of_nat (length p) <= MAX_STR_DIGITS) parts)
     then Some (digits_value <$> parts) else None).
Proof.
  induction parts as [|p parts IH]; [reflexivity|].
  cbn [mapM]. rewrite IH, int_of_digits_limit.
  destruct (decide (N.of_nat (length p) <= MAX_STR_DIGITS)) as [Hp|Hp]; simpl.
  - destruct (decide (Forall _ parts)) as [Hr|Hr]; simpl.
    + rewrite decide_True by (now constructor). reflexivity.
    + rewrite decide_False; [reflexivity|]. intros H. apply Hr. now inversion H.
  - rewrite decide_False; [reflexivity|]. intros H. apply Hp. now inversion H.
Qed.

Lemma parse_version_limit v :
  parse_version v =
    (if decide (within_int_limit v)
     then Some (match findall_digits (strip_prefix v) with
                | [] => [0]
                | parts => digits_value <$> parts
                end)
     else None).
Proof.
  unfold parse_version, within_int_limit. destruct v as [|c v].
  - now rewrite decide_True by constructor.
  - destruct (findall_digits (strip_prefix (c :: v))) as [|p parts] eqn:Hparts.
    + now rewrite decide_True by constructor.
    + apply mapM_int_of_digits.
Qed.

Lemma parse_version_is_Some v : within_int_limit v <-> is_Some (parse_version v).
Proof.
  rewrite parse_version_limit. destruct (decide (within_int_limit v)); split; try done.
Qed.

Lemma parse_version_None v : parse_version v = None <-> ~ within_int_limit v.
Proof.
  rewrite parse_version_limit. destruct (decide (within_int_limit v)); split; try done.
Qed.

Lemma parse_version_nonempty s t : parse_version s = Some t -> t <> [].
Proof.
  rewrite parse_version_limit. destruct (decide _); [|discriminate].
  intros [= <-]. destruct (findall_digits (strip_prefix s)); discriminate.
Qed.

(** *** The comparison on versions that parse *)

Lemma compare_versions_Some v1 v2 t1 t2 :
  parse_version v1 = Some t1 -> parse_version v2 = Some t2 ->
  compare_versions v1 v2 =
    Some (if tuple_lt t1 t2 then (-1)%Z else if tuple_lt t2 t1 then 1%Z else 0%Z).
Proof.
  intros H1 H2. unfold compare_versions. rewrite H1, H2. simpl.
  now rewrite tuple_gt_lt.
Qed.

Lemma compare_versions_inv v1 v2 c :
  compare_versions v1 v2 = Some c ->
  exists t1 t2, parse_version v1 = Some t1 /\ parse_version v2 = Some t2.
Proof.
  unfold compare_versions.
  destruct (parse_version v1) as [t1|]; [|discriminate].
  destruct (parse_version v2) as [t2|]; [|discriminate]. eauto.
Qed.

Lemma compare_versions_None v1 v2 :
  compare_versions v1 v2 = None <-> parse_version v1 = None \/ parse_version v2 = None.
Proof.
  unfold compare_versions.
  destruct (parse_version v1) as [t1|]; [|simpl; tauto].
  destruct (parse_version v2) as [t2|]; simpl; [|tauto].
  split; [discriminate | intros [?|?]; discriminate].
Qed.

Lemma compare_versions_lt v1 v2 t1 t2 :
  parse_version v1 = Some t1 -> parse_version v2 = Some t2 ->
  compare_versions v1 v2 = Some (-1)%Z <-> tuple_lt t1 t2 = true.
Proof.
  intros H1 H2. rewrite (compare_versions_Some v1 v2 t1 t2 H1 H2).
  destruct (tuple_lt t1 t2); [tauto|].
  destruct (tuple_lt t2 t1); split; congruence.
Qed.

Lemma compare_versions_gt v1 v2 t1 t2 :
  parse_version v1 = Some t1 -> parse_version v2 = Some t2 ->
  compare_versions v1 v2 = Some 1%Z <-> tuple_lt t2 t1 = true.
Proof.
  intros H1 H2. rewrite (compare_versions_Some v1 v2 t1 t2 H1 H2).
  destruct (tuple_lt t1 t2) eqn:H12.
  - apply tuple_lt_asym in H12. rewrite H12. split; congruence.
  - destruct (tuple_lt t2 t1); split; congruence.
Qed.

Lemma compare_versions_eq v1 v2 t1 t2 :
  parse_version v1 = Some t1 -> parse_version v2 = Some t2 ->
  compare_versions v1 v2 = Some 0%Z <-> t1 = t2.
Proof.
  intros H1 H2. rewrite (compare_versions_Some v1 v2 t1 t2 H1 H2). split.
  - destruct (tuple_lt t1 t2) eqn:H12; [congruence|].
    destruct (tuple_lt t2 t1) eqn:H21; [congruence|].
    intros _. now apply tuple_lt_total.
  - intros ->. now rewrite tuple_lt_irrefl.
Qed.

Lemma compare_versions_range v1 v2 c :
  compare_versions v1 v2 = Some c -> c = (-1)%Z \/ c = 0%Z \/ c = 1%Z.
Proof.
  intros H. destruct (compare_versions_inv _ _ _ H) as (t1 & t2 & H1 & H2).
  rewrite (compare_versions_Some v1 v2 t1 t2 H1 H2) in H. injection H as <-.
  destruct (tuple_lt t1 t2); [tauto|]. destruct (tuple_lt t2 t1); tauto.
Qed.

(** C4, as the code has it: on the version strings [parse_version] parses,
    those in which no run of digits is longer than the 4300 digits [int]
    converts, [compare_versions] is a total preorder that agrees with the
    lexicographic order of the parsed tuples: it is reflexive, swapping the
    arguments negates the result, "greater" is transitive, the result is 0
    exactly on equal tuples and -1 exactly when the first tuple is
    lexicographically smaller, it is always one of -1, 0 and 1, and
    components compare as numbers, so 1.10.0 is above 1.9.0.  On any other
    string the comparison raises. *)
Theorem compare_versions_total_preorder :
  (forall a, within_int_limit a -> compare_versions a a = Some 0%Z) /\
  (forall a b c, compare_versions a b = Some c -> compare_versions b a = Some (- c)%Z) /\
  (forall a b c, compare_versions a b = Some 1%Z -> compare_versions b c = Some 1%Z ->
                 compare_versions a c = Some 1%Z) /\
  (forall a b ta tb, parse_version a = Some ta -> parse_version b = Some tb ->
     (compare_versions a b = Some 0%Z <-> ta = tb) /\
     (compare_versions a b = Some (-1)%Z <-> lex_lt ta tb)) /\
  (forall a b, within_int_limit a -> within_int_limit b ->
     compare_versions a b = Some (-1)%Z \/ compare_versions a b = Some 0%Z \/
     compare_versions a b = Some 1%Z) /\
  (forall a b, compare_versions a b = None <-> ~ within_int_limit a \/ ~ within_int_limit b) /\
  compare_versions (lit "1.10.0") (lit "1.9.0") = Some 1%Z.
Proof.
  split_and!.
  - intros a [ta Ha]%parse_version_is_Some.
    now apply (compare_versions_eq a a ta ta Ha Ha).
  - intros a b c H.
    destruct (compare_versions_inv _ _ _ H) as (ta & tb & Ha & Hb).
    destruct (compare_versions_range _ _ _ H) as [-> | [-> | ->]]; simpl.
    + apply (compare_versions_gt b a tb ta Hb Ha).
      now apply (compare_versions_lt a b ta tb Ha Hb).
    + apply (compare_versions_eq b a tb ta Hb Ha). symmetry.
      now apply (compare_versions_eq a b ta tb Ha Hb).
    + apply (compare_versions_lt b a tb ta Hb Ha).
      now apply (compare_versions_gt a b ta tb Ha Hb).
  - intros a b c Hab Hbc.
    destruct (compare_versions_inv _ _ _ Hab) as (ta & tb & Ha & Hb).
    destruct (compare_versions_inv _ _ _ Hbc) as (tb' & tc & Hb' & Hc).
    rewrite Hb in Hb'. injection Hb' as <-.
    apply (compare_versions_gt a c ta tc Ha Hc).
    apply (compare_versions_gt a b ta tb Ha Hb) in Hab.
    apply (compare_versions_gt b c tb tc Hb Hc) in Hbc.
    eauto using tuple_lt_trans.
  - intros a b ta tb Ha Hb. split.
    + now apply compare_versions_eq.
    + rewrite (compare_versions_lt a b ta tb Ha Hb). apply tuple_lt_lex.
  - intros a b [ta Ha]%parse_version_is_Some [tb Hb]%parse_version_is_Some.
    rewrite (compare_versions_Some a b ta tb Ha Hb).
    destruct (tuple_lt ta tb); [tauto|]. destruct (tuple_lt tb ta); tauto.
  - intros a b. rewrite compare_versions_None, !parse_version_None. reflexivity.
  - reflexivity.
Qed.

Lemma compare_versions_witness :
  within_int_limit (lit "v3.0") /\
  compare_versions (lit "v3.0") (lit "v3.0") = Some 0%Z /\
  compare_versions (lit "v3.0") (lit "2.5.1") = Some 1%Z /\
  compare_versions (lit "2.5.1") (lit "2.5") = Some 1%Z /\
  compare_versions (lit "v3.0") (lit "2.5") = Some 1%Z.
Proof.
  assert (H0 : within_int_limit (lit "v3.0")).
  { apply parse_version_is_Some. now exists [3; 0]. }
  assert (H1 : compare_versions (lit "v3.0") (lit "2.5.1") = Some 1%Z) by reflexivity.
  assert (H2 : compare_versions (lit "2.5.1") (lit "2.5") = Some 1%Z) by reflexivity.
  split_and!; [exact H0 | | exact H1 | exact H2 |].
  - exact (proj1 compare_versions_total_preorder _ H0).
  - exact (proj1 (proj2 (proj2 compare_versions_total_preorder)) _ _ _ H1 H2).
Defined.

(** C4 as stated fails on a version with a run of 4301 digits: [int] refuses
    the run, [parse_version] raises, and comparing the string with itself
    raises instead of giving 0. *)
Lemma compare_versions_raises_on_long_run :
  let a := replicate 4301 49 in
  length a = 4301%nat /\
  parse_version a = None /\
  compare_versions a a = None /\
  compare_versions a a <> Some 0%Z.
Proof. vm_compute. split_and!; try reflexivity. discriminate. Qed.

Lemma tuple_zero_least t : t <> [] -> tuple_lt t [0] = false.
Proof.
  destruct t as [|x r]; [congruence|]. intros _. simpl.
  destruct (N.eqb_spec x 0); [now destruct r | apply N.ltb_ge; lia].
Qed.

(** C6, as the code has it: the string returned when no version can be
    extracted parses to the tuple (0,); no parsed tuple is below (0,); so
    comparing that string with a version string that parses gives -1 or 0,
    and with any version string it never gives 1. *)
Theorem unknown_version_is_lowest :
  (forall E apk, aapt_badging E apk = None -> parse_version_from_apk E apk = UNKNOWN) /\
  (forall E apk out, aapt_badging E apk = Some out -> search_versionName out = None ->
                     parse_version_from_apk E apk = UNKNOWN) /\
  parse_version UNKNOWN = Some [0] /\
  (forall s t, parse_version s = Some t -> tuple_lt t [0] = false) /\
  (forall s, within_int_limit s ->
     compare_versions UNKNOWN s = Some (-1)%Z \/ compare_versions UNKNOWN s = Some 0%Z) /\
  (forall s, compare_versions UNKNOWN s <> Some 1%Z).
Proof.
  assert (Hu : parse_version UNKNOWN = Some [0]) by reflexivity.
  assert (Hmin : forall s t, parse_version s = Some t -> tuple_lt t [0] = false)
    by (intros s t H; eapply tuple_zero_least, parse_version_nonempty, H).
  assert (Hne : forall s, compare_versions UNKNOWN s <> Some 1%Z).
  { intros s H. destruct (compare_versions_inv _ _ _ H) as (t0 & t & H0 & Ht).
    rewrite Hu in H0. injection H0 as <-.
    apply (compare_versions_gt UNKNOWN s [0] t Hu Ht) in H.
    now rewrite (Hmin s t Ht) in H. }
  split_and!.
  - intros E apk H. unfold parse_version_from_apk. now rewrite H.
  - intros E apk out H1 H2. unfold parse_version_from_apk. now rewrite H1, H2.
  - exact Hu.
  - exact Hmin.
  - intros s [t Ht]%parse_version_is_Some.
    pose proof (compare_versions_Some UNKNOWN s [0] t Hu Ht) as Hc.
    rewrite (Hmin s t Ht) in Hc. destruct (tuple_lt [0] t); auto.
  - exact Hne.
Qed.

Lemma unknown_version_witness :
  aapt_badging (serving []) [] = None /\
  parse_version_from_apk (serving []) [] = UNKNOWN /\
  within_int_limit (lit "0.0.1") /\
  compare_versions UNKNOWN (lit "0.0.1") = Some (-1)%Z.
Proof.
  assert (Hw : within_int_limit (lit "0.0.1")).
  { apply parse_version_is_Some. now exists [0; 0; 1]. }
  split; [reflexivity|]. split_and!.
  - exact (proj1 unknown_version_is_lowest (serving []) [] eq_refl).
  - exact Hw.
  - destruct (proj1 (proj2 (proj2 (proj2 (proj2 unknown_version_is_lowest)))) (lit "0.0.1") Hw)
      as [H|H].
    + exact H.
    + vm_compute in H. discriminate H.
Defined.

(** C6 as stated fails on a version with a run of 4301 digits: comparing
    the string for an unknown version with it raises, so the result is
    neither -1 nor 0. *)
Lemma unknown_version_raises_on_long_run :
  let s := lit "1." ++ replicate 4301 48 in
  compare_versions UNKNOWN s = None /\
  compare_versions UNKNOWN s <> Some (-1)%Z /\
  compare_versions UNKNOWN s <> Some 0%Z.
Proof. vm_compute. split_and!; [reflexivity | discriminate | discriminate]. Qed.

(** ** CatalogStore *)

Section Sorting.
Context {A : Type} (key : A -> str).

Lemma insert_by_perm x l : Permutation (x :: l) (insert_by key x l).
Proof.
  induction l as [|y l IH]; simpl; [reflexivity|].
  destruct (str_lt (key y) (key x)); [|reflexivity].
  rewrite perm_swap. now constructor.
Qed.

Lemma sorted_perm l : Permutation l (sorted key l).
Proof.
  induction l as [|x l IH]; simpl; [constructor|].
  rewrite <- insert_by_perm. now constructor.
Qed.






End Sorting.


(** ** SourceResolver *)

Lemma custom_url_completed out err :
  custom_url (Completed out err) =
    if is_http (first_line (strip out)) then Some (first_line (strip out)) else None.
Proof.
  unfold custom_url, first_line, is_http.
  destruct (strip out) as [|c s] eqn:Hs; [reflexivity|].
  destruct (first_piece (split_on 10 (c :: s))); reflexivity.
Qed.

Ltac other_method :=
  repeat (rewrite bool_decide_eq_false_2 by (vm_compute; discriminate)).

(** C7, as the code has it: for a [custom] entry the resolver returns a URL
    exactly when the command completes and the first line of its standard
    output, taken after leading and trailing white space is stripped from
    the whole output, starts with http:// or https://; the URL returned is
    that line; a timeout, a failure to run, an empty command or any other
    output gives no URL; and an entry whose method is none of direct,
    github_release, gitlab_release and custom is never resolved. *)
Theorem custom_resolution_stripped_first_line (E : Env) :
  (forall app u,
      sourceMethod app = Some (lit "custom") ->
      get_download_url E app = Some u <->
        default [] (sourceUpdate app) <> [] /\
        exists out err,
          run_shell E (default [] (sourceUpdate app)) = Completed out err /\
          u = first_line (strip out) /\ is_http u = true) /\
  (forall app,
      sourceMethod app = Some (lit "custom") ->
      run_shell E (default [] (sourceUpdate app)) = TimeoutExpired ->
      get_download_url E app = None) /\
  (forall app m,
      sourceMethod app = Some m ->
      m ∉ [lit "direct"; lit "github_release"; lit "gitlab_release"; lit "custom"] ->
      get_download_url E app = None).
Proof.
  split_and!.
  - intros app u Hcustom. unfold get_download_url. rewrite Hcustom. simpl default.
    other_method. rewrite bool_decide_eq_true_2 by reflexivity.
    destruct (default [] (sourceUpdate app)) as [|c cmd] eqn:Hcmd.
    { split; [discriminate | intros [? _]; congruence]. }
    destruct (run_shell E (c :: cmd)) as [out err| |] eqn:Hrun.
    + rewrite custom_url_completed. split.
      * destruct (is_http (first_line (strip out))) eqn:Hh; [|discriminate].
        intros [= <-]. split; [discriminate|]. now exists out, err.
      * intros (_ & out' & err' & [= <- <-] & -> & Hh). now rewrite Hh.
    + split; [discriminate | intros (_ & ? & ? & ? & _); discriminate].
    + split; [discriminate | intros (_ & ? & ? & ? & _); discriminate].
  - intros app Hcustom Hrun. unfold get_download_url. rewrite Hcustom. simpl default.
    other_method. rewrite bool_decide_eq_true_2 by reflexivity.
    destruct (default [] (sourceUpdate app)); [reflexivity|]. now rewrite Hrun.
  - intros app m Hm Hout. unfold get_download_url. rewrite Hm. simpl default.
    repeat (case_bool_decide; [exfalso; apply Hout; subst m; set_solver|]).
    reflexivity.
Qed.

Lemma custom_resolution_witness :
  let out := lit "  http://example.org/app.apk" ++ [32; 10] ++ lit "second line" ++ [10] in
  let E := sample_env (fun _ => Completed out []) (fun _ => None) (fun _ _ => None) in
  first_line (strip out) = lit "http://example.org/app.apk " /\
  get_download_url E custom_app = Some (lit "http://example.org/app.apk ") /\
  get_download_url E (sample_app None None (Some (lit "manual")) None None) = None.
Proof.
  intros out E.
  pose proof (custom_resolution_stripped_first_line E) as (Hcustom & _ & Hother).
  split; [reflexivity|]. split.
  - apply (Hcustom custom_app (lit "http://example.org/app.apk ") eq_refl).
    split; [discriminate|]. exists out, []. repeat split.
  - apply (Hother (sample_app None None (Some (lit "manual")) None None) (lit "manual") eq_refl).
    vm_compute. intros H. repeat (inversion H as [|? ? ? H']; clear H; rename H' into H).
Defined.

(** C7 as stated fails on a leading blank line: the first line of the
    standard output is empty, and the resolver still returns the URL of the
    second line. *)
Lemma custom_first_line_counterexample :
  let out := 10 :: lit "http://example.org/app.apk" in
  let E := sample_env (fun _ => Completed out []) (fun _ => None) (fun _ _ => None) in
  sourceMethod custom_app = Some (lit "custom") /\
  run_shell E (default [] (sourceUpdate custom_app)) = Completed out [] /\
  first_line out = [] /\
  is_http (first_line out) = false /\
  get_download_url E custom_app = Some (lit "http://example.org/app.apk").
Proof. vm_compute. repeat split. Qed.

(** ** Fuzzy filename matching *)

Lemma startswith_spec p s : startswith p s = true <-> exists post, s = p ++ post.
Proof.
  revert s; induction p as [|a p IH]; intros s; simpl.
  - split; [intros _; now exists s | reflexivity].
  - destruct s as [|b s].
    + split; [discriminate | intros [post H]; discriminate].
    + rewrite andb_true_iff, N.eqb_eq, IH. split.
      * intros [-> [post ->]]. now exists post.
      * intros [post [= -> ->]]. split; [reflexivity | now exists post].
Qed.

Lemma contains_spec a b : contains a b = true <-> substring a b.
Proof.
  unfold substring. induction b as [|c b IH]; simpl.
  - rewrite orb_false_r, startswith_spec. split.
    + intros [post H]. exists [], post. exact H.
    + intros (pre & post & H). destruct pre; [now exists post|discriminate].
  - rewrite orb_true_iff, startswith_spec, IH. split.
    + intros [[post H]|(pre & post & ->)].
      * exists [], post. exact H.
      * now exists (c :: pre), post.
    + intros (pre & post & H). destruct pre as [|x pre].
      * left. now exists post.
      * right. injection H as _ ->. now exists pre, post.
Qed.

Lemma contains_empty s : contains [] s = true.
Proof. destruct s; reflexivity. Qed.


Lemma matches_from_spec E n l : forall k i,
  i ∈ matches_from E n k l <->
    exists j app, i = (k + j)%nat /\ l !! j = Some app /\ title_matches E n app = true.
Proof.
  induction l as [|a l IH]; intros k i; simpl.
  - split; [intros H; inversion H | intros (j & app & _ & H & _); discriminate].
  - assert (Hrest : i ∈ matches_from E n (S k) l <->
      exists j app, i = (k + S j)%nat /\ l !! j = Some app /\ title_matches E n app = true).
    { rewrite IH. split; intros (j & app & -> & H); exists j, app; split; auto; lia. }
    destruct (title_matches E n a) eqn:Ha.
    + rewrite elem_of_cons, Hrest. split.
      * intros [->|(j & app & -> & H)]; [exists 0%nat, a | exists (S j), app]; split_and!; auto; try lia.
        apply H. apply H.
      * intros ([|j] & app & -> & Hl & Hm); [left; lia | right; now exists j, app].
    + rewrite Hrest. split.
      * intros (j & app & -> & H). now exists (S j), app.
      * intros ([|j] & app & -> & Hl & Hm); [simpl in Hl; congruence | now exists j, app].
Qed.

Lemma takewhile_app f a c b :
  Forall (fun x => f x = true) a -> f c = false -> takewhile f (a ++ c :: b) = a.
Proof.
  induction 1 as [|x a Hx _ IH]; intros Hc; simpl.
  - now rewrite Hc.
  - now rewrite Hx, IH.
Qed.

Lemma rsplit1_last sep stem ext :
  sep ∉ ext -> rsplit1 sep (stem ++ sep :: ext) = [stem; ext].
Proof.
  intros Hext. unfold rsplit1.
  rewrite bool_decide_eq_true_2 by set_solver.
  rewrite rev_app_distr. simpl rev. rewrite <- app_assoc. simpl app.
  rewrite takewhile_app.
  - rewrite rev_involutive. f_equal.
    rewrite length_app. simpl length.
    replace (length stem + S (length ext) - length ext - 1)%nat with (length stem) by lia.
    now rewrite take_app_length.
  - apply Forall_forall. intros x Hx. apply list_elem_of_In, in_rev in Hx.
    apply negb_true_iff, N.eqb_neq. intros ->. apply Hext. now apply list_elem_of_In.
  - now rewrite N.eqb_refl.
Qed.



Lemma matches_from_all E n l :
  (forall app, app ∈ l -> title_matches E n app = true) ->
  forall k, matches_from E n k l = seq k (length l).
Proof.
  induction l as [|a l IH]; intros Hall k; simpl; [reflexivity|].
  rewrite Hall by left. f_equal. apply IH. intros app Happ. apply Hall. now right.
Qed.

(** C10: a file name whose part before the last dot is empty, such as
    .apk, matches every entry of every catalog, and an entry whose title is
    empty is matched by every file name. *)
Theorem empty_stem_or_title_matches_everything (E : Env) (Hlower : str_lower E [] = []) :
  (forall filename l,
      name_without_ext filename = [] ->
      find_app_by_filename E filename l = seq 0 (length l)) /\
  name_without_ext (lit ".apk") = [] /\
  (forall filename l i app,
      l !! i = Some app -> default [] (title app) = [] ->
      i ∈ find_app_by_filename E filename l).
Proof.
  split_and!.
  - intros filename l Hstem. unfold find_app_by_filename, normalize_filename.
    rewrite Hstem. simpl dashes_to_spaces. rewrite Hlower.
    apply matches_from_all. intros app _. unfold title_matches.
    now rewrite contains_empty, orb_true_r.
  - reflexivity.
  - intros filename l i app Hl Htitle. unfold find_app_by_filename.
    apply matches_from_spec. exists i, app. split_and!; auto.
    unfold title_matches. now rewrite Htitle, Hlower, contains_empty.
Qed.

Lemma empty_stem_or_title_witness :
  str_lower (sample_env (fun _ => ShellError) (fun _ => None) (fun _ _ => None)) [] = [] /\
  find_app_by_filename (sample_env (fun _ => ShellError) (fun _ => None) (fun _ _ => None))
    (lit ".apk") [titled (lit "My Cool App"); titled (lit "Other")] = [0%nat; 1%nat] /\
  1%nat ∈ find_app_by_filename (sample_env (fun _ => ShellError) (fun _ => None) (fun _ _ => None))
    (lit "whatever.apk") [titled (lit "Other"); titled []].
Proof.
  split; [reflexivity|].
  pose proof (empty_stem_or_title_matches_everything
    (sample_env (fun _ => ShellError) (fun _ => None) (fun _ _ => None)) eq_refl) as (Hall & Hstem & Htitle).
  split.
  - exact (Hall (lit ".apk") [titled (lit "My Cool App"); titled (lit "Other")] Hstem).
  - exact (Htitle (lit "whatever.apk") [titled (lit "Other"); titled []] 1%nat (titled []) eq_refl eq_refl).
Defined.

(** ** DownloadPipeline *)

Lemma publish_replaced E app_idx app app_title old_ver new_ver filename body data w :
  default [] (apps data) !! app_idx = Some app ->
  let d := fresh (dom (tmp w)) in
  replaced E app_idx app filename new_ver body data w
    (let '(result, data', w2) :=
       publish E app_idx app_title old_ver new_ver filename d body data
         (with_temp_file d filename body (mkdtemp w).2) in
     (result, data', rmtree d w2)).
Proof.
  intros Happ d. destruct data as [[l|]]; [|discriminate].
  simpl in Happ. unfold replaced, publish, save_apps. simpl.
  assert (Hin : set_ver_lastUpdated new_ver (utcnow E) app ∈
                sorted (title_key E) (alter (set_ver_lastUpdated new_ver (utcnow E)) app_idx l)).
  { rewrite <- sorted_perm. eapply list_elem_of_lookup_2.
    rewrite list_lookup_alter_eq, Happ. reflexivity. }
  destruct old_ver; simpl; split_and!; auto.
Qed.



(** C1 at a failing input: the installed file is a 5.0 from which the
    version can be read, the catalog records 1.0 for the entry, and the
    candidate is a 4.0 with other bytes.  The candidate is strictly below
    the installed version, and the scheduled publish, which compares it with
    the recorded 1.0, replaces the 5.0 file, saves 4.0 and reports an
    update. *)
Theorem scheduled_publish_downgrades_installed_file :
  let E := serving [x34] in
  let w := store_world (lit "1.0") [x35] in
  let out := update_single_app E 0 (store_catalog (lit "1.0")) w in
  apks w !! lit "app.apk" = Some [x35] /\
  parse_version_from_apk E [x35] = lit "5.0" /\
  parse_version_from_apk E [x34] = lit "4.0" /\
  sha256 E [x34] <> sha256 E [x35] /\
  compare_versions (lit "4.0") (lit "5.0") = Some (-1)%Z /\
  out.1.1 = true /\
  apks out.2 !! lit "app.apk" = Some [x34] /\
  (ver <$> default [] (apps out.1.2)) = [Some (lit "4.0")] /\
  config out.2 = Some out.1.2 /\
  sent out.2 = [Updated (lit "app") (lit "1.0") (lit "4.0")].
Proof. vm_compute. split_and!; try reflexivity. discriminate. Qed.

Lemma get_installed_version_spec E app w :
  (forall installed,
      apks w !! get_target_filename app = Some installed ->
      parse_version_from_apk E installed <> UNKNOWN ->
      get_installed_version E app w = parse_version_from_apk E installed) /\
  (forall installed,
      apks w !! get_target_filename app = Some installed ->
      parse_version_from_apk E installed = UNKNOWN ->
      get_installed_version E app w = default UNKNOWN (ver app)) /\
  (apks w !! get_target_filename app = None ->
      get_installed_version E app w = default UNKNOWN (ver app)).
Proof.
  unfold get_installed_version. split_and!.
  - intros installed -> Hv. now rewrite bool_decide_eq_true_2.
  - intros installed -> Hv. now rewrite bool_decide_eq_false_2 by tauto.
  - now intros ->.
Qed.

(** C3 at a failing input: the catalog records version 1.0, the installed
    file is a 3.0 from which the version can be read, the candidate is a
    2.0 with other bytes.  The scheduled publish compares 2.0 with the
    recorded 1.0 and replaces the 3.0 file; the interactive path on the same
    files compares with the installed 3.0 and waits for a confirmation. *)
Theorem scheduled_publish_ignores_installed_file_version :
  let E := serving [x32] in
  let w := store_world (lit "1.0") [x33] in
  let out := update_single_app E 0 (store_catalog (lit "1.0")) w in
  parse_version_from_apk E [x32] = lit "2.0" /\
  get_installed_version E (store_app (lit "1.0")) w = lit "3.0" /\
  compare_versions (lit "2.0") (get_installed_version E (store_app (lit "1.0")) w) =
    Some (-1)%Z /\
  out.1.1 = true /\
  apks out.2 !! lit "app.apk" = Some [x32] /\
  (ver <$> default [] (apps out.1.2)) = [Some (lit "2.0")] /\
  exists asked,
    process_update E 0 (0%nat, lit "app.apk") (lit "app.apk") (lit "2.0") cleared w =
      Some asked /\
    apks asked.2 !! lit "app.apk" = Some [x33] /\
    confirm_app_idx asked.1 = Some 0%nat /\
    config asked.2 = config w.
Proof. vm_compute. split_and!; try reflexivity. eexists. split_and!; reflexivity. Qed.

Lemma fresh_tmp w : tmp w !! fresh (dom (tmp w)) = None.
Proof. apply not_elem_of_dom, is_fresh. Qed.

Ltac release_fresh :=
  simpl; rewrite ?insert_insert_eq; rewrite ?delete_insert_id by apply fresh_tmp;
  try reflexivity.


(** ** Staging directories *)



(** The upload step on a failed transfer: the conversation state is cleared
    and the directory made for the upload stays behind. *)
Lemma addapp_step1_document_failure E doc data ud w :
  endswith (lit ".apk") (str_lower E (doc_file_name doc)) = true ->
  (MAX_UPLOAD <? default 0 (doc_file_size doc)) = false ->
  tg_get_file E (doc_file_id doc) = None ->
  addapp_step1_document E doc data ud w =
    (cleared, (mkdtemp w).2) /\
  tmp (mkdtemp w).2 !! fresh (dom (tmp w)) = Some None.
Proof.
  intros Hapk Hsize Hfile. unfold addapp_step1_document.
  rewrite Hapk, Hsize, Hfile. simpl. split; [reflexivity | apply lookup_insert_eq].
Qed.






(** ** Writers of the catalog *)

Lemma update_single_app_published E app_idx data w :
  let out := update_single_app E app_idx data w in
  out.1.1 = true ->
  exists app u body,
    default [] (apps data) !! app_idx = Some app /\
    get_download_url E app = Some u /\ u <> [] /\
    http_stream E true u = Some body /\ body <> [] /\
    plain_name (target_of app) = true /\
    config out.2 = Some out.1.2 /\
    apks out.2 = <[target_of app := body]> (apks w) /\
    sent out.2 =
      sent w ++ [match default [] (ver app) with
                 | [] => Added (default (lit "Unknown") (title app))
                           (parse_version_from_apk E body)
                 | old => Updated (default (lit "Unknown") (title app)) old
                            (parse_version_from_apk E body)
                 end] /\
    apps out.1.2 =
      Some (sorted (title_key E)
              (alter (set_ver_lastUpdated (parse_version_from_apk E body) (utcnow E)) app_idx
                 (default [] (apps data)))).
Proof.
  intros out. subst out. unfold update_single_app.
  destruct (default [] (apps data) !! app_idx) as [app|] eqn:Happ; [|discriminate].
  destruct (get_download_url E app) as [[|c u]|] eqn:Hurl; try discriminate.
  unfold download_and_decide.
  destruct (http_stream E true (c :: u)) as [body|] eqn:Hbody; [|discriminate].
  fold (target_of app).
  unfold write_temp. destruct (plain_name (target_of app)) eqn:Hplain; [|discriminate].
  destruct body as [|b body]; [discriminate|].
  change (mkdtemp w) with (fresh (dom (tmp w)), (mkdtemp w).2). cbv iota beta.
  change (apks (with_temp_file (fresh (dom (tmp w))) _ _ (mkdtemp w).2)) with (apks w).
  pose proof (publish_replaced E app_idx app (default (lit "Unknown") (title app))
    (default [] (ver app)) (parse_version_from_apk E (b :: body)) (target_of app)
    (b :: body) data w Happ) as (_ & Hfile & Hconfig & Happs & _).
  cbv zeta in Hfile, Hconfig, Happs.
  assert (Hsent : sent (let '(result, data', w2) :=
              publish E app_idx (default (lit "Unknown") (title app)) (default [] (ver app))
                (parse_version_from_apk E (b :: body)) (target_of app)
                (fresh (dom (tmp w))) (b :: body) data
                (with_temp_file (fresh (dom (tmp w))) (target_of app) (b :: body) (mkdtemp w).2) in
            (result, data', rmtree (fresh (dom (tmp w))) w2)).2 =
          sent w ++ [match default [] (ver app) with
                     | [] => Added (default (lit "Unknown") (title app))
                               (parse_version_from_apk E (b :: body))
                     | old => Updated (default (lit "Unknown") (title app)) old
                                (parse_version_from_apk E (b :: body))
                     end]).
  { unfold publish, save_apps. destruct (default [] (ver app)); reflexivity. }
  assert (Hall : forall P : Prop, P -> P) by auto.
  destruct (apks w !! target_of app) as [installed|].
  - destruct (bool_decide _); [intros Ht; cbn in Ht; discriminate|].
    destruct (compare_versions _ _) as [cmp|]; [|intros Ht; cbn in Ht; discriminate].
    destruct (cmp =? -1)%Z; [intros Ht; cbn in Ht; discriminate|].
    destruct (cmp =? 0)%Z; [intros Ht; cbn in Ht; discriminate|].
    intros _. exists app, (c :: u), (b :: body). split_and!; auto; discriminate.
  - intros _. exists app, (c :: u), (b :: body). split_and!; auto; discriminate.
Qed.

Lemma alter_keeps_titles (f : AppRecord -> AppRecord) (i : nat) (l : list AppRecord) x :
  (forall a, title (f a) = title a) ->
  x ∈ l -> exists y, y ∈ alter f i l /\ title y = title x.
Proof.
  intros Hf [j Hj]%list_elem_of_lookup.
  destruct (decide (i = j)) as [->|Hne].
  - exists (f x). split; [|apply Hf].
    eapply list_elem_of_lookup_2. now rewrite list_lookup_alter_eq, Hj.
  - exists x. split; [|reflexivity].
    apply (list_elem_of_lookup_2 _ j). now rewrite list_lookup_alter_ne.
Qed.





(** * Further properties *)

(** ** VersionModel: prefixes and the round trip *)

Lemma dropwhile_app_stop f p c s :
  Forall (fun x => f x = true) p -> f c = false ->
  dropwhile f (p ++ c :: s) = c :: s.
Proof.
  induction 1 as [|x p Hx _ IH]; intros Hc; simpl.
  - now rewrite Hc.
  - now rewrite Hx, IH.
Qed.

(** X1: a prefix of ASCII letters, with or without a dot after it, does not
    change what [parse_version] gives, the tuple or the exception, when the
    version proper starts with a character that is neither an ASCII letter
    nor a dot; so a version that parses and the same version behind such a
    prefix compare as equal. *)
Theorem parse_version_ignores_prefix (p : str) (c : N) (s : str) :
  Forall (fun x => is_ascii_alpha x = true) p ->
  is_ascii_alpha c = false -> c <> 46 ->
  parse_version (p ++ c :: s) = parse_version (c :: s) /\
  parse_version (p ++ 46 :: c :: s) = parse_version (c :: s) /\
  (within_int_limit (c :: s) ->
   compare_versions (p ++ 46 :: c :: s) (c :: s) = Some 0%Z).
Proof.
  intros Hp Hc Hdot.
  assert (Hplain : strip_prefix (c :: s) = c :: s).
  { unfold strip_prefix. simpl. rewrite Hc.
    now rewrite (proj2 (N.eqb_neq c 46) Hdot). }
  assert (H1 : strip_prefix (p ++ c :: s) = c :: s).
  { unfold strip_prefix. rewrite dropwhile_app_stop by assumption.
    now rewrite (proj2 (N.eqb_neq c 46) Hdot). }
  assert (H2 : strip_prefix (p ++ 46 :: c :: s) = c :: s).
  { unfold strip_prefix. now rewrite dropwhile_app_stop. }
  assert (Hparse : forall v, v <> [] -> strip_prefix v = c :: s ->
                             parse_version v = parse_version (c :: s)).
  { intros v Hv Hstrip. unfold parse_version at 1 2.
    destruct v; [congruence|]. now rewrite Hstrip, Hplain. }
  assert (E1 : parse_version (p ++ c :: s) = parse_version (c :: s))
    by (apply Hparse; [now destruct p | exact H1]).
  assert (E2 : parse_version (p ++ 46 :: c :: s) = parse_version (c :: s))
    by (apply Hparse; [now destruct p | exact H2]).
  split_and!; auto. intros [t Ht]%parse_version_is_Some.
  apply (compare_versions_eq _ _ t t); [now rewrite E2 | exact Ht | reflexivity].
Qed.

Lemma parse_version_ignores_prefix_witness :
  Forall (fun x => is_ascii_alpha x = true) (lit "MatriX") /\
  within_int_limit (lit "5.1") /\
  parse_version (lit "MatriX.5.1") = parse_version (lit "5.1") /\
  compare_versions (lit "MatriX.5.1") (lit "5.1") = Some 0%Z.
Proof.
  assert (Hp : Forall (fun x => is_ascii_alpha x = true) (lit "MatriX"))
    by (repeat constructor).
  assert (Hw : within_int_limit (lit "5.1")).
  { apply parse_version_is_Some. now exists [5; 1]. }
  split; [exact Hp|]. split; [exact Hw|].
  destruct (parse_version_ignores_prefix (lit "MatriX") 53 (lit ".1") Hp eq_refl
              ltac:(discriminate)) as (_ & H2 & H3).
  split; [exact H2 | exact (H3 Hw)].
Defined.

Ltac digit_case := cbn [uint_chars fold_left];
  match goal with
  | |- context [decimal_value ?c] =>
      let v := eval vm_compute in (decimal_value c) in
      change (decimal_value c) with v
  end; cbn [default from_option id].

Lemma int_of_digits_acc u : forall acc,
  fold_left (fun a c => 10 * a + default 0 (decimal_value c)) (uint_chars u) (Npos acc) =
  Npos (Pos.of_uint_acc u acc).
Proof.
  induction u; intros acc; [reflexivity|..]; digit_case; cbn [Pos.of_uint_acc];
    rewrite <- IHu; f_equal; lia.
Qed.

Lemma int_of_digits_uint u : digits_value (uint_chars u) = Pos.of_uint u.
Proof.
  unfold digits_value.
  induction u; [reflexivity|..]; digit_case; cbn [Pos.of_uint];
    try exact IHu; rewrite <- int_of_digits_acc; reflexivity.
Qed.

Lemma int_of_digits_decimal n : digits_value (decimal n) = n.
Proof.
  unfold decimal. rewrite int_of_digits_uint.
  apply DecimalN.Unsigned.of_to.
Qed.

Lemma uint_chars_digits u : Forall (fun c => is_ascii_digit c = true) (uint_chars u).
Proof. induction u; simpl; constructor; auto. Qed.

Lemma ascii_digit_decimal c : is_ascii_digit c = true -> is_decimal c = true.
Proof.
  unfold is_ascii_digit. intros [H1%N.leb_le H2%N.leb_le]%andb_true_iff.
  unfold is_decimal, decimal_value. simpl List.find.
  rewrite (proj2 (N.leb_le 48 c) H1).
  replace (c <=? 48 + 9) with true by (symmetry; apply N.leb_le; lia).
  reflexivity.
Qed.

Lemma decimal_nonempty n : decimal n <> [].
Proof.
  unfold decimal. destruct n as [|p]; [discriminate|].
  simpl. pose proof (DecimalPos.Unsigned.to_uint_nonnil p) as Hp.
  destruct (Pos.to_uint p); simpl; congruence.
Qed.

Lemma digit_runs_digits ds : forall rest run,
  Forall (fun c => is_ascii_digit c = true) ds ->
  digit_runs (ds ++ rest) run = digit_runs rest (run ++ ds).
Proof.
  induction ds as [|d ds IH]; intros rest run Hds; simpl.
  - now rewrite app_nil_r.
  - inversion Hds as [|? ? Hd Hds']; subst.
    rewrite (ascii_digit_decimal d Hd), IH by assumption.
    now rewrite <- app_assoc.
Qed.

Lemma findall_digits_dotted t : t <> [] -> findall_digits (dotted t) = decimal <$> t.
Proof.
  unfold findall_digits. induction t as [|n t IH]; [congruence|]. intros _.
  destruct t as [|m t].
  - change (dotted [n]) with (decimal n). rewrite <- (app_nil_r (decimal n)) at 1.
    rewrite digit_runs_digits by apply uint_chars_digits. cbn [digit_runs app].
    pose proof (decimal_nonempty n) as Hn.
    change (decimal <$> [n]) with [decimal n].
    destruct (decimal n); [congruence | reflexivity].
  - change (dotted (n :: m :: t)) with (decimal n ++ 46 :: dotted (m :: t)).
    rewrite digit_runs_digits by apply uint_chars_digits.
    cbn [digit_runs app]. change (is_decimal 46) with false. cbv iota.
    pose proof (decimal_nonempty n) as Hn.
    destruct (decimal n) as [|d ds] eqn:Hd; [congruence|].
    rewrite IH by discriminate.
    change (decimal <$> n :: m :: t) with (decimal n :: (decimal <$> m :: t)).
    now rewrite Hd.
Qed.

Lemma dotted_head t : t <> [] ->
  exists c s, dotted t = c :: s /\ is_ascii_digit c = true.
Proof.
  destruct t as [|n t]; [congruence|]. intros _.
  pose proof (decimal_nonempty n) as Hn. pose proof (uint_chars_digits (N.to_uint n)) as Hd.
  fold (decimal n) in Hd.
  destruct (decimal n) as [|c s] eqn:Hdec; [congruence|].
  inversion Hd; subst.
  destruct t as [|m t]; simpl; rewrite Hdec; eauto.
Qed.

Lemma parse_dotted (u : list N) :
  u <> [] -> short_components u -> parse_version (dotted u) = Some u.
Proof.
  intros Hu Hshort. destruct (dotted_head u Hu) as (c & s & Hcs & Hc).
  unfold parse_version. rewrite Hcs.
  assert (Hstrip : strip_prefix (c :: s) = c :: s).
  { unfold strip_prefix, is_ascii_digit in *. apply andb_true_iff in Hc as [H1%N.leb_le H2%N.leb_le].
    simpl. unfold is_ascii_alpha.
    replace (65 <=? c) with false by (symmetry; apply N.leb_gt; lia).
    replace (97 <=? c) with false by (symmetry; apply N.leb_gt; lia).
    simpl. replace (c =? 46) with false by (symmetry; apply N.eqb_neq; lia).
    reflexivity. }
  rewrite Hstrip, <- Hcs, findall_digits_dotted by assumption.
  assert (Hmap : digits_value <$> (decimal <$> u) = u).
  { clear. induction u as [|n u IH]; [reflexivity|].
    rewrite !fmap_cons, IH. now rewrite int_of_digits_decimal. }
  assert (HmapM : mapM int_of_digits (decimal <$> u) = Some u).
  { rewrite mapM_int_of_digits, decide_True, Hmap; [reflexivity|].
    now apply Forall_fmap. }
  destruct u as [|n u]; [congruence|].
  change (decimal <$> n :: u) with (decimal n :: (decimal <$> u)) in *.
  exact HmapM.
Qed.

(** X2: parsing undoes rendering.  Every non-empty tuple of numbers of at
    most 4300 digits each, written as decimal numbers joined by dots,
    parses back to itself, so comparing two such strings is comparing the
    tuples lexicographically. *)
Theorem parse_version_dotted (t : list N) :
  t <> [] -> short_components t ->
  parse_version (dotted t) = Some t /\
  forall t', t' <> [] -> short_components t' ->
    (compare_versions (dotted t) (dotted t') = Some (-1)%Z <-> lex_lt t t') /\
    (compare_versions (dotted t) (dotted t') = Some 0%Z <-> t = t').
Proof.
  intros Ht Hs. split; [now apply parse_dotted|]. intros t' Ht' Hs'.
  pose proof (parse_dotted t Ht Hs) as Hp. pose proof (parse_dotted t' Ht' Hs') as Hp'.
  split.
  - rewrite (compare_versions_lt _ _ t t' Hp Hp'). apply tuple_lt_lex.
  - apply (compare_versions_eq _ _ t t' Hp Hp').
Qed.

Lemma parse_version_dotted_witness :
  dotted [1; 10; 0] = lit "1.10.0" /\
  short_components [1; 10; 0] /\
  parse_version (dotted [1; 10; 0]) = Some [1; 10; 0].
Proof.
  assert (Hs : short_components [1; 10; 0]) by (repeat constructor; vm_compute; discriminate).
  split; [reflexivity|]. split; [exact Hs|].
  exact (proj1 (parse_version_dotted [1; 10; 0] ltac:(discriminate) Hs)).
Defined.

(** X3: versions are not padded with zeros: a version with one more
    component is above the version without it, whatever that component is
    (all components of at most 4300 digits), so 1.2.0 is above 1.2. *)
Theorem longer_version_is_greater (t : list N) (x : N) :
  t <> [] -> short_components (t ++ [x]) ->
  compare_versions (dotted (t ++ [x])) (dotted t) = Some 1%Z.
Proof.
  intros Ht Hs.
  assert (Hst : short_components t) by (now apply Forall_app in Hs as [? _]).
  apply (compare_versions_gt _ _ (t ++ [x]) t).
  - apply parse_dotted; [now destruct t | exact Hs].
  - now apply parse_dotted.
  - apply tuple_lt_lex. right. now exists x, [].
Qed.

Lemma longer_version_is_greater_witness :
  dotted ([1; 2] ++ [0]) = lit "1.2.0" /\ dotted [1; 2] = lit "1.2" /\
  short_components ([1; 2] ++ [0]) /\
  compare_versions (lit "1.2.0") (lit "1.2") = Some 1%Z.
Proof.
  assert (Hs : short_components ([1; 2] ++ [0]))
    by (repeat constructor; vm_compute; discriminate).
  split; [reflexivity|]. split; [reflexivity|]. split; [exact Hs|].
  exact (longer_version_is_greater [1; 2] 0 ltac:(discriminate) Hs).
Defined.

(** ** CatalogStore: stability, and catalogs that are already sorted *)

Lemma tuple_lt_irrefl_eq a b : a = b -> tuple_lt a b = false.
Proof. intros ->. apply tuple_lt_irrefl. Qed.

Lemma insert_by_filter {A} (key : A -> str) (k : str) x l :
  filter (fun y => key y = k) (insert_by key x l) =
  filter (fun y => key y = k) (x :: l).
Proof.
  induction l as [|y l IH]; simpl; [reflexivity|].
  destruct (str_lt (key y) (key x)) eqn:Hlt; [|reflexivity].
  rewrite (filter_cons _ y), IH, !filter_cons.
  repeat case_decide; try reflexivity.
  exfalso. unfold str_lt in Hlt.
  rewrite tuple_lt_irrefl_eq in Hlt by congruence. discriminate.
Qed.

(** X4: saving is stable: entries whose titles are equal once lower-cased
    are written in the order they had, whatever moved around them. *)
Theorem save_apps_stable (E : Env) (l : list AppRecord) (w : World) (k : str) :
  exists l',
    apps (save_apps E {| apps := Some l |} w).1 = Some l' /\
    filter (fun a => title_key E a = k) l' = filter (fun a => title_key E a = k) l.
Proof.
  exists (sorted (title_key E) l). split; [reflexivity|].
  induction l as [|x l IH]; [reflexivity|].
  simpl sorted. rewrite insert_by_filter, !filter_cons, IH. reflexivity.
Qed.


Lemma sent_publish E app_idx app_title old_ver new_ver filename d body data w :
  sent (publish E app_idx app_title old_ver new_ver filename d body data w).2 =
  sent w ++ [match old_ver with
             | [] => Added app_title new_ver
             | _ => Updated app_title old_ver new_ver
             end].
Proof. unfold publish, save_apps. destruct old_ver; reflexivity. Qed.







(** ** DownloadPipeline: failures, notifications, and what a sweep touches *)

Lemma world_eq c a t s t' :
  t = t' ->
  {| config := c; apks := a; tmp := t; sent := s |} =
  {| config := c; apks := a; tmp := t'; sent := s |}.
Proof. now intros ->. Qed.



Lemma update_single_app_sent_skip E app_idx data w :
  let out := update_single_app E app_idx data w in
  out.1.1 = false ->
  sent out.2 = sent w \/
  exists app, default [] (apps data) !! app_idx = Some app /\
    let t := default (lit "Unknown") (title app) in
    (sent out.2 = sent w ++ [NoUrl t] \/ sent out.2 = sent w ++ [UpdateError t] \/
     sent out.2 = sent w ++ [EmptyFile t]).
Proof.
  intros out. subst out. unfold update_single_app.
  destruct (default [] (apps data) !! app_idx) as [app|] eqn:Happ; [|now left].
  destruct (get_download_url E app) as [[|c u]|];
    try (intros _; right; exists app; split; [reflexivity|]; left; reflexivity).
  unfold mkdtemp, download_and_decide.
  destruct (http_stream E true (c :: u)) as [body|];
    [|intros _; right; exists app; split; [reflexivity|]; right; left; reflexivity].
  unfold write_temp. destruct (plain_name _);
    [|intros _; right; exists app; split; [reflexivity|]; right; left; reflexivity].
  destruct body as [|b body].
  - intros _; right; exists app; split; [reflexivity|]. right; right. reflexivity.
  - cbn [apks with_temp_file].
    destruct (apks w !! _).
    + destruct (bool_decide _); [now left|].
      destruct (compare_versions _ _) as [cmp|];
        [|intros _; right; exists app; split; [reflexivity|]; right; left; reflexivity].
      destruct (cmp =? -1)%Z; [now left|].
      destruct (cmp =? 0)%Z; [now left|].
      intros Ht. cbn in Ht. discriminate.
    + intros Ht. cbn in Ht. discriminate.
Qed.

(** X7: one call sends at most one notification.  A publish sends exactly
    one: "added" when the entry had no version on record, otherwise
    "updated" with the recorded and the new version, the new version being
    the one read from the package downloaded from the resolved URL; a call
    that publishes nothing sends either nothing or one failure
    notification. *)
Theorem update_single_app_notifies_once (E : Env) (app_idx : nat) (data : Catalog) (w : World) :
  let out := update_single_app E app_idx data w in
  (out.1.1 = true ->
     exists app u body,
       default [] (apps data) !! app_idx = Some app /\
       get_download_url E app = Some u /\
       http_stream E true u = Some body /\
       let t := default (lit "Unknown") (title app) in
       let new_ver := parse_version_from_apk E body in
       sent out.2 =
         sent w ++ [match default [] (ver app) with
                    | [] => Added t new_ver
                    | old => Updated t old new_ver
                    end]) /\
  (out.1.1 = false ->
     sent out.2 = sent w \/
     exists app, default [] (apps data) !! app_idx = Some app /\
       let t := default (lit "Unknown") (title app) in
       (sent out.2 = sent w ++ [NoUrl t] \/ sent out.2 = sent w ++ [UpdateError t] \/
        sent out.2 = sent w ++ [EmptyFile t])).
Proof.
  intros out. split.
  - intros Htrue.
    destruct (update_single_app_published E app_idx data w Htrue)
      as (app & u & body & Happ & Hu & _ & Hbody & _ & _ & _ & _ & Hsent & _).
    exists app, u, body. split_and!; [exact Happ | exact Hu | exact Hbody |].
    exact Hsent.
  - apply update_single_app_sent_skip.
Qed.





(** ** SourceResolver: release assets *)

Lemma first_asset_first E flt pick pre a post :
  (forall b, b ∈ pre -> re_search E flt (default [] (asset_name b)) = Some false) ->
  re_search E flt (default [] (asset_name a)) = Some true ->
  first_asset E flt pick (pre ++ a :: post) = pick a.
Proof.
  intros Hpre Ha. induction pre as [|b pre IH]; simpl.
  - now rewrite Ha.
  - rewrite Hpre by left. apply IH. intros b' Hb'. apply Hpre. now right.
Qed.

Lemma first_asset_none E flt pick l :
  (forall b, b ∈ l -> re_search E flt (default [] (asset_name b)) = Some false) ->
  first_asset E flt pick l = None.
Proof.
  induction l as [|b l IH]; intros Hl; simpl; [reflexivity|].
  rewrite Hl by left. apply IH. intros b' Hb'. apply Hl. now right.
Qed.

(** X9: the release methods return the link of the first asset whose name
    the filter matches, whatever comes after it: [browser_download_url] of
    the flat list for GitHub, [url] of the list under assets.assets for
    GitLab; when no asset matches, or the request fails, there is no URL. *)
Theorem release_first_matching_asset (E : Env) (app : AppRecord) :
  default [] (sourceFilter app) <> [] ->
  let flt := default [] (sourceFilter app) in
  let source := default [] (sourceUpdate app) in
  let no_match (b : Asset) := re_search E flt (default [] (asset_name b)) = Some false in
  (forall pre a post,
      sourceMethod app = Some (lit "github_release") ->
      http_get_assets E source = Some (AssetsList (pre ++ a :: post)) ->
      (forall b, b ∈ pre -> no_match b) ->
      re_search E flt (default [] (asset_name a)) = Some true ->
      get_download_url E app = browser_download_url a) /\
  (forall pre a post,
      sourceMethod app = Some (lit "gitlab_release") ->
      http_get_assets E source = Some (AssetsObject (Some (pre ++ a :: post))) ->
      (forall b, b ∈ pre -> no_match b) ->
      re_search E flt (default [] (asset_name a)) = Some true ->
      get_download_url E app = asset_url a) /\
  (forall l,
      sourceMethod app = Some (lit "github_release") ->
      http_get_assets E source = Some (AssetsList l) ->
      (forall b, b ∈ l -> no_match b) ->
      get_download_url E app = None) /\
  (sourceMethod app = Some (lit "github_release") \/
   sourceMethod app = Some (lit "gitlab_release") ->
   http_get_assets E source = None ->
   get_download_url E app = None).
Proof.
  intros Hflt flt source no_match. subst flt source no_match.
  destruct (default [] (sourceFilter app)) as [|f0 flt] eqn:Hf; [congruence|].
  split_and!.
  - intros pre a post Hm Hdoc Hpre Ha. unfold get_download_url. rewrite Hm, Hf. simpl default.
    other_method. rewrite bool_decide_eq_true_2 by reflexivity.
    rewrite Hdoc. now apply first_asset_first.
  - intros pre a post Hm Hdoc Hpre Ha. unfold get_download_url. rewrite Hm, Hf. simpl default.
    other_method. rewrite bool_decide_eq_true_2 by reflexivity.
    rewrite Hdoc. now apply first_asset_first.
  - intros l Hm Hdoc Hl. unfold get_download_url. rewrite Hm, Hf. simpl default.
    other_method. rewrite bool_decide_eq_true_2 by reflexivity.
    rewrite Hdoc. now apply first_asset_none.
  - intros [Hm|Hm] Hdoc; unfold get_download_url; rewrite Hm, Hf; simpl default;
      other_method; rewrite bool_decide_eq_true_2 by reflexivity; now rewrite Hdoc.
Qed.

Lemma release_first_matching_asset_witness :
  let notes := sample_asset (lit "notes.txt") (lit "https://dl.example/notes.txt") in
  let first := sample_asset (lit "app-arm64.apk") (lit "https://dl.example/app-arm64.apk") in
  let second := sample_asset (lit "app-x86.apk") (lit "https://dl.example/app-x86.apk") in
  let E := release_env (AssetsList [notes; first; second]) in
  default [] (sourceFilter github_app) <> [] /\
  get_download_url E github_app = Some (lit "https://dl.example/app-arm64.apk").
Proof.
  intros notes first second E.
  assert (Hflt : default [] (sourceFilter github_app) <> []) by discriminate.
  split; [exact Hflt|].
  apply (proj1 (release_first_matching_asset E github_app Hflt) [notes] first [second]
           eq_refl eq_refl).
  - intros b Hb. apply list_elem_of_singleton in Hb. subst b. reflexivity.
  - reflexivity.
Defined.

(** ** File names *)

Lemma takewhile_Forall f s : Forall (fun x => f x = true) (takewhile f s).
Proof.
  induction s as [|c s IH]; simpl; [constructor|].
  destruct (f c) eqn:Hc; constructor; assumption.
Qed.

Lemma rsplit1_last_piece_clean sep s : sep ∉ last_piece (rsplit1 sep s).
Proof.
  unfold rsplit1, last_piece. case_bool_decide as Hin; simpl; [|exact Hin].
  intros Hmem. apply list_elem_of_In, in_rev, list_elem_of_In in Hmem.
  pose proof (takewhile_Forall (fun c => negb (c =? sep)) (rev s)) as Hall.
  rewrite Forall_forall in Hall. apply Hall in Hmem.
  now rewrite N.eqb_refl in Hmem.
Qed.

(** X10: the file name of the interactive updates and of the removal never
    contains a path separator, whatever the entry's [url] and title are. *)
Theorem get_target_filename_no_separator (app : AppRecord) :
  47 ∉ get_target_filename app.
Proof.
  unfold get_target_filename.
  destruct (default [] (url app)) as [|c u]; [|apply rsplit1_last_piece_clean].
  intros [Hin|Hin]%elem_of_app.
  - apply list_elem_of_fmap in Hin as (x & Hx & _).
    destruct (is_filename_char x) eqn:Hfc; [subst x; discriminate | discriminate].
  - vm_compute in Hin. repeat (inversion Hin as [|? ? ? Hin']; clear Hin; rename Hin' into Hin).
Qed.

Lemma split_on_nonempty sep s : split_on sep s <> [].
Proof.
  destruct s as [|c s]; simpl; [discriminate|].
  destruct (c =? sep); [discriminate|]. destruct (split_on sep s); discriminate.
Qed.

Lemma split_on_app sep a b :
  split_on sep (a ++ sep :: b) = split_on sep a ++ split_on sep b.
Proof.
  induction a as [|c a IH]; simpl.
  - now rewrite N.eqb_refl.
  - destruct (c =? sep); [now rewrite IH|].
    rewrite IH. pose proof (split_on_nonempty sep a).
    destruct (split_on sep a); [congruence | reflexivity].
Qed.

Lemma split_on_none sep s : sep ∉ s -> split_on sep s = [s].
Proof.
  induction s as [|c s IH]; intros Hs; simpl; [reflexivity|].
  destruct (N.eqb_spec c sep) as [->|Hne]; [exfalso; apply Hs; left|].
  rewrite IH; [reflexivity|]. intros Hin. apply Hs. now right.
Qed.

Lemma last_app_singleton (l : list (list N)) x : last_piece (l ++ [x]) = x.
Proof. unfold last_piece. apply last_last. Qed.

Lemma targets_of_url (app : AppRecord) (stem seg : str) :
  url app = Some (stem ++ 47 :: seg) ->
  47 ∉ seg -> seg <> [] -> seg <> lit "." ->
  target_of app = seg /\ get_target_filename app = seg.
Proof.
  intros Hurl Hseg Hne Hdot. split.
  - unfold target_of, staging_filename. rewrite Hurl. simpl default.
    destruct (stem ++ 47 :: seg) as [|c0 r] eqn:Hcons; [now destruct stem|].
    rewrite <- Hcons. unfold path_name.
    rewrite split_on_app, (split_on_none 47 seg Hseg), filter_app.
    rewrite (filter_cons_True _ seg []) by (split; assumption).
    rewrite filter_nil. apply last_app_singleton.
  - unfold get_target_filename. rewrite Hurl. simpl default.
    destruct (stem ++ 47 :: seg) as [|c0 r] eqn:Hcons; [now destruct stem|].
    rewrite <- Hcons. now rewrite rsplit1_last.
Qed.

(** X11: the scheduled and the interactive update write the same file.  For
    an entry whose [url] ends in a slash followed by a segment that is not
    empty and not a single dot, both file names are that segment. *)
Theorem update_paths_share_target (app : AppRecord) (stem seg : str) :
  url app = Some (stem ++ 47 :: seg) ->
  47 ∉ seg -> seg <> [] -> seg <> lit "." ->
  target_of app = seg /\ get_target_filename app = seg.
Proof. apply targets_of_url. Qed.

Lemma update_paths_share_target_witness :
  url (store_app (lit "1.0")) = Some (lit "http://example.org/apks" ++ 47 :: lit "app.apk") /\
  target_of (store_app (lit "1.0")) = lit "app.apk" /\
  get_target_filename (store_app (lit "1.0")) = lit "app.apk".
Proof.
  split; [reflexivity|].
  apply (update_paths_share_target (store_app (lit "1.0")) (lit "http://example.org/apks")
           (lit "app.apk") eq_refl); [|discriminate|discriminate].
  vm_compute. intros Hin.
  repeat (inversion Hin as [|? ? ? Hin']; clear Hin; rename Hin' into Hin).
Defined.

(** ** Fuzzy filename matching: shape of the result, and exact names *)

Lemma matches_from_bounds E n l : forall k,
  Forall (fun i => (k <= i < k + length l)%nat) (matches_from E n k l).
Proof.
  induction l as [|a l IH]; intros k; simpl; [constructor|].
  assert (Hrest : Forall (fun i => (k <= i < k + S (length l))%nat) (matches_from E n (S k) l)).
  { eapply Forall_impl; [apply IH|]. simpl. intros i Hi. lia. }
  destruct (title_matches E n a); [constructor; [lia | exact Hrest] | exact Hrest].
Qed.

Lemma matches_from_increasing E n l : forall k,
  StronglySorted lt (matches_from E n k l).
Proof.
  induction l as [|a l IH]; intros k; simpl; [constructor|].
  destruct (title_matches E n a); [|apply IH].
  constructor; [apply IH|].
  eapply Forall_impl; [apply (matches_from_bounds E n l (S k))|]. simpl. intros i Hi. lia.
Qed.

(** X12: the matcher returns positions of the catalog, each one once, in
    increasing order. *)
Theorem find_app_by_filename_indices (E : Env) (filename : str) (l : list AppRecord) :
  StronglySorted lt (find_app_by_filename E filename l) /\
  NoDup (find_app_by_filename E filename l) /\
  forall i, i ∈ find_app_by_filename E filename l -> (i < length l)%nat.
Proof.
  unfold find_app_by_filename.
  pose proof (matches_from_increasing E (normalize_filename E filename) l 0) as Hs.
  pose proof (matches_from_bounds E (normalize_filename E filename) l 0) as Hb.
  split_and!.
  - exact Hs.
  - clear Hb. induction Hs as [|i r Hs IH Hall]; constructor; [|exact IH].
    intros Hin. rewrite Forall_forall in Hall. specialize (Hall i Hin). lia.
  - intros i Hi. rewrite Forall_forall in Hb. specialize (Hb i Hi). lia.
Qed.

Lemma contains_refl s : contains s s = true.
Proof. apply contains_spec. exists [], []. now rewrite app_nil_r. Qed.

Lemma dashes_to_spaces_id s : 95 ∉ s -> 45 ∉ s -> dashes_to_spaces s = s.
Proof.
  unfold dashes_to_spaces. induction s as [|c s IH]; intros H1 H2; [reflexivity|].
  rewrite fmap_cons, IH; [| intros ?; apply H1; now right | intros ?; apply H2; now right].
  destruct (N.eqb_spec c 95) as [->|?]; [exfalso; apply H1; left|].
  destruct (N.eqb_spec c 45) as [->|?]; [exfalso; apply H2; left|]. reflexivity.
Qed.

(** X13: a file named after an entry, its title followed by one extension,
    is matched to that entry, provided the title has no underscore and no
    hyphen (those are turned into spaces in the file name only). *)
Theorem own_name_matches (E : Env) (l : list AppRecord) (i : nat) (app : AppRecord)
    (t ext : str) :
  l !! i = Some app -> title app = Some t ->
  95 ∉ t -> 45 ∉ t -> 46 ∉ ext ->
  i ∈ find_app_by_filename E (t ++ 46 :: ext) l.
Proof.
  intros Hl Ht H1 H2 Hext.
  unfold find_app_by_filename. apply matches_from_spec.
  exists i, app. split_and!; [reflexivity | exact Hl |].
  unfold title_matches, normalize_filename, name_without_ext.
  rewrite bool_decide_eq_true_2 by set_solver.
  rewrite rsplit1_last by exact Hext. simpl first_piece.
  rewrite dashes_to_spaces_id, Ht by assumption. simpl default.
  now rewrite contains_refl.
Qed.

Lemma own_name_matches_witness :
  let E := serving [x32] in
  let l := [titled (lit "Other"); titled (lit "My Cool App")] in
  l !! 1%nat = Some (titled (lit "My Cool App")) /\
  1%nat ∈ find_app_by_filename E (lit "My Cool App" ++ 46 :: lit "apk") l.
Proof.
  intros E l. split; [reflexivity|].
  apply (own_name_matches E l 1%nat (titled (lit "My Cool App")) (lit "My Cool App") (lit "apk")
           eq_refl eq_refl);
    vm_compute; intros Hin;
    repeat (inversion Hin as [|? ? ? Hin']; clear Hin; rename Hin' into Hin).
Defined.

(** ** Titles the add wizard accepts, and the files they name *)

Lemma title_char_range c :
  is_title_char c = true ->
  65 <= c <= 90 \/ 97 <= c <= 122 \/ 48 <= c <= 57 \/ c = 95 \/ c = 45.
Proof.
  unfold is_title_char, is_ascii_alpha, is_ascii_digit.
  rewrite !orb_true_iff, !andb_true_iff, !N.leb_le, !N.eqb_eq. tauto.
Qed.

Lemma dropwhile_head f s c r : dropwhile f s = c :: r -> f c = false.
Proof.
  induction s as [|x s IH]; simpl; [discriminate|].
  destruct (f x) eqn:Hx; [exact IH | now intros [= <- _]].
Qed.

Lemma strip_last_not_space t c r : rev (strip t) = c :: r -> is_space c = false.
Proof. unfold strip. rewrite rev_involutive. apply dropwhile_head. Qed.

Lemma forallb_Forall_true (f : N -> bool) (l : list N) :
  forallb f l = true -> Forall (fun c => f c = true) l.
Proof.
  intros H. apply Forall_forall. intros y Hy.
  apply (proj1 (forallb_forall f l) H). now apply list_elem_of_In.
Qed.

Lemma title_re_match_stripped t :
  title_re_match (strip t) = true ->
  strip t <> [] /\ Forall (fun c => is_title_char c = true) (strip t).
Proof.
  unfold title_re_match.
  destruct (rev (strip t)) as [|c r] eqn:Hrev.
  - destruct (strip t) as [|x s] eqn:Hs; [discriminate|].
    intros H. split; [discriminate | now apply forallb_Forall_true].
  - pose proof (strip_last_not_space t c r Hrev) as Hc.
    destruct (N.eqb_spec c 10) as [->|_]; [discriminate|].
    destruct (strip t) as [|x s] eqn:Hs; [discriminate|].
    intros H. split; [discriminate | now apply forallb_Forall_true].
Qed.

Lemma contains_skip x p t s :
  x ∉ t -> contains (x :: p) (t ++ s) = contains (x :: p) s.
Proof.
  induction t as [|c t IH]; intros Ht; [reflexivity|].
  cbn [app contains startswith].
  destruct (N.eqb_spec x c) as [->|_]; [exfalso; apply Ht; left|].
  simpl. apply IH. intros Hin. apply Ht. now right.
Qed.

Lemma title_chars_avoid t c :
  Forall (fun x => is_title_char x = true) t -> c = 46 \/ c = 47 \/ c = 92 -> c ∉ t.
Proof.
  intros Hall Hc Hin. rewrite Forall_forall in Hall.
  apply Hall, title_char_range in Hin. lia.
Qed.

Lemma endswith_app suffix a : endswith suffix (a ++ suffix) = true.
Proof.
  unfold endswith. rewrite rev_app_distr. apply startswith_spec. now exists (rev a).
Qed.

(** X14: the download endpoint serves only a package of [APKS_DIR] under
    the name asked for, a name with no [..], slash or backslash that ends in
    [.apk] whatever the case; and it does serve the package installed under
    a title of the add wizard's alphabet. *)
Theorem download_apk_serves (E : Env) (w : World) :
  (forall filename name body,
      download_apk E filename w = SendFile name body ->
      name = filename /\ apks w !! filename = Some body /\
      contains (lit "..") filename = false /\ (47 ∉ filename) /\ (92 ∉ filename) /\
      endswith (lit ".apk") (str_lower E filename) = true) /\
  (forall filename, apks w !! filename = None -> download_apk E filename w <> NotFound ->
      download_apk E filename w = Forbidden) /\
  (lower_on_ascii E ->
   forall t body,
      Forall (fun c => is_title_char c = true) t ->
      apks w !! (t ++ lit ".apk") = Some body ->
      download_apk E (t ++ lit ".apk") w = SendFile (t ++ lit ".apk") body).
Proof.
  split_and!.
  - intros filename name body. unfold download_apk.
    destruct (contains (lit "..") filename) eqn:H1; [discriminate|].
    destruct (contains [47] filename) eqn:H2; [discriminate|].
    destruct (contains [92] filename) eqn:H3; [discriminate|]. simpl.
    destruct (endswith (lit ".apk") (str_lower E filename)) eqn:H4; [|discriminate]. simpl.
    destruct (apks w !! filename) as [b|]; [|discriminate].
    intros [= <- <-]. split_and!; auto.
    + intros [pre [post ->]]%list_elem_of_split.
      assert (contains [47] (pre ++ 47 :: post) = true); [|congruence].
      apply contains_spec. now exists pre, post.
    + intros [pre [post ->]]%list_elem_of_split.
      assert (contains [92] (pre ++ 92 :: post) = true); [|congruence].
      apply contains_spec. now exists pre, post.
  - intros filename Hnone Hnot. unfold download_apk in *. rewrite Hnone in *.
    destruct (_ || _ || _); [reflexivity|].
    destruct (negb _); [reflexivity | congruence].
  - intros Hlower t body Ht Hfile. unfold download_apk.
    change (lit "..") with [46; 46].
    rewrite !contains_skip by (apply title_chars_avoid; auto).
    change (contains [46; 46] (lit ".apk") || contains [47] (lit ".apk")
            || contains [92] (lit ".apk")) with false. cbv iota.
    rewrite Hlower.
    + unfold ascii_lower. rewrite fmap_app.
      change ((fun c => if (65 <=? c) && (c <=? 90) then c + 32 else c) <$> lit ".apk")
        with (lit ".apk").
      rewrite endswith_app. simpl negb. cbv iota. now rewrite Hfile.
    + apply Forall_app. split.
      * eapply Forall_impl; [exact Ht|]. simpl. intros c Hc%title_char_range. lia.
      * repeat constructor.
Qed.

Lemma download_apk_serves_witness :
  let E := serving [x32] in
  let w := store_world (lit "1.0") [x31] in
  lower_on_ascii E /\
  download_apk E (lit "app" ++ lit ".apk") w = SendFile (lit "app.apk") [x31] /\
  download_apk E (lit "../config/apps.json") w = Forbidden.
Proof.
  intros E w.
  assert (Hlower : lower_on_ascii E) by (intros s _; reflexivity).
  split; [exact Hlower|]. split; [|reflexivity].
  apply (proj2 (proj2 (download_apk_serves E w)) Hlower (lit "app") [x31]);
    [repeat constructor | reflexivity].
Defined.

(** X15: an entry the add wizard writes is found again by both update
    paths under the name the wizard installed its package: for a title of
    the wizard's alphabet, the scheduled and the interactive file name of
    the new record are the title followed by [.apk], whatever the server's
    domain is. *)
Theorem wizard_entry_targets (E : Env) (data : AddappData) (t version : str) :
  Forall (fun c => is_title_char c = true) t ->
  target_of (new_app_record E data t version) = t ++ lit ".apk" /\
  get_target_filename (new_app_record E data t version) = t ++ lit ".apk".
Proof.
  intros Ht.
  assert (Hseg : 47 ∉ t ++ lit ".apk").
  { intros [Hin|Hin]%elem_of_app.
    - revert Hin. apply title_chars_avoid; auto.
    - vm_compute in Hin.
      repeat (inversion Hin as [|? ? ? Hin']; clear Hin; rename Hin' into Hin). }
  assert (Hne : t ++ lit ".apk" <> []) by (now destruct t).
  assert (Hdot : t ++ lit ".apk" <> lit ".") by (destruct t as [|? [|? ?]]; discriminate).
  destruct (SERVER_DOMAIN E) as [|d0 dom] eqn:Hdom.
  - apply (targets_of_url _ (lit "/apks") (t ++ lit ".apk")); auto.
    unfold new_app_record. simpl url. rewrite Hdom. reflexivity.
  - apply (targets_of_url _ (lit "http://" ++ (d0 :: dom) ++ lit "/apks") (t ++ lit ".apk")); auto.
    unfold new_app_record. simpl url. rewrite Hdom. f_equal.
    rewrite <- !app_assoc. reflexivity.
Qed.

Lemma wizard_entry_targets_witness :
  let E := serving [x32] in
  let data := ready_to_add (lit "new-app_2") (lit "5.0") (0%nat, lit "upload.apk") in
  Forall (fun c => is_title_char c = true) (lit "new-app_2") /\
  url (new_app_record E data (lit "new-app_2") (lit "5.0")) =
    Some (lit "http://example.org/apks/new-app_2.apk") /\
  target_of (new_app_record E data (lit "new-app_2") (lit "5.0")) = lit "new-app_2.apk" /\
  get_target_filename (new_app_record E data (lit "new-app_2") (lit "5.0")) = lit "new-app_2.apk".
Proof.
  intros E data.
  assert (Ht : Forall (fun c => is_title_char c = true) (lit "new-app_2")) by (repeat constructor).
  split; [exact Ht|]. split; [reflexivity|].
  exact (wizard_entry_targets E data (lit "new-app_2") (lit "5.0") Ht).
Defined.

(** ** The add wizard from the first message to the catalog *)










(** X17: what step 2 of the add wizard lets through.  A message at step 2
    either changes nothing at all or moves the wizard to step 3 with a
    title that is not empty and is made of ASCII letters, digits,
    underscores and hyphens only; and no message at steps 2 to 4.1 touches
    a file. *)
Theorem addapp_title_step (E : Env) (msg : Message) (ud : UserData) (w : World) :
  (addapp_step ud = Some Step2 ->
     addapp_handle_input E true msg ud w = (ud, w) \/
     exists t,
       addapp_handle_input E true msg ud w =
         (set_addapp Step3 (with_title (default no_addapp_data (addapp_data ud)) t) ud, w) /\
       t <> [] /\ Forall (fun c => is_title_char c = true) t) /\
  (addapp_step ud = Some Step2 \/ addapp_step ud = Some Step3 \/
   addapp_step ud = Some Step4 \/ addapp_step ud = Some Step4_1 ->
     (addapp_handle_input E true msg ud w).2 = w).
Proof.
  split.
  - intros Hstep. unfold addapp_handle_input. change (negb true) with false. cbv iota.
    rewrite Hstep. unfold on_text. destruct (text msg) as [t|]; [|now left].
    destruct (strip t) as [|c s] eqn:Hs; [now left|].
    destruct (title_re_match (c :: s)) eqn:Hre; [|now left].
    right. exists (c :: s). split; [reflexivity|].
    rewrite <- Hs in *. now apply title_re_match_stripped.
  - intros Hstep. unfold addapp_handle_input. change (negb true) with false. cbv iota.
    unfold on_text.
    destruct Hstep as [H|[H|[H|H]]]; rewrite H; destruct (text msg) as [t|];
      try reflexivity; destruct (strip t); try reflexivity.
    + now destruct (title_re_match _).
    + now destruct (bool_decide _).
Qed.

(** ** The remove wizard *)




(** X19: the remove wizard changes a file only on the confirmation: for
    every message in every state, either all files are as before, or the
    wizard was at step 2 and the message was the delete button; the cancel
    button ends the conversation at either step without touching a file. *)
Theorem remove_wizard_only_on_confirm (E : Env) (msg : Message) (s : Session) (w : World) :
  let out := removeapp_handle_input E true msg s w in
  (out.2 = w \/
   (removeapp_step (user_data s) = Some Step2 /\
    exists t, text msg = Some t /\ strip t = DELETE_BTN)) /\
  (forall t,
     text msg = Some t -> strip t = CANCEL_BTN ->
     removeapp_step (user_data s) = Some Step1 \/ removeapp_step (user_data s) = Some Step2 ->
     out = (session_cleared, w)).
Proof.
  intros out. subst out. unfold removeapp_handle_input. change (negb true) with false.
  cbv iota. split.
  - destruct (removeapp_step (user_data s)) as [step|]; [|now left].
    destruct (text msg) as [t|]; [|now left]. cbv zeta.
    destruct step; try (now left).
    + case_bool_decide; [now left|].
      destruct (load_apps w) as [data|]; [|now left].
      destruct (find_title _ _ _); now left.
    + case_bool_decide; [now left|].
      case_bool_decide as Hd; [now left|].
      right. split; [reflexivity|]. exists t. split; [reflexivity|].
      destruct (decide (strip t = DELETE_BTN)); [assumption | contradiction].
  - intros t Ht Hc [Hs|Hs]; rewrite Hs, Ht; cbv zeta; rewrite Hc;
      now rewrite bool_decide_eq_true_2.
Qed.

(** ** The buttons under an uploaded package *)







(** ** An uploaded package outside the wizards *)


Lemma handle_document_staged E upd doc ud w file_url body l :
  addapp_step ud = None -> updateapp_step ud = None ->
  endswith (lit ".apk") (str_lower E (doc_file_name doc)) = true ->
  (MAX_UPLOAD <? default 0 (doc_file_size doc)) = false ->
  tg_get_file E (doc_file_id doc) = Some file_url ->
  http_stream E false file_url = Some body ->
  plain_name (doc_file_name doc) = true ->
  config w = Some {| apps := Some l |} ->
  let p := (fresh (dom (tmp w)), doc_file_name doc) in
  let w2 := with_temp_file p.1 p.2 body (mkdtemp w).2 in
  handle_document E upd true (doc_msg doc) ud w =
    match find_app_by_filename E (doc_file_name doc) l with
    | [app_idx] =>
        default (ud, rmtree p.1 w2)
          (process_update E app_idx p (doc_file_name doc) (parse_version_from_apk E body)
             ud w2)
    | _ => (set_upload p (doc_file_name doc) (parse_version_from_apk E body) ud, w2)
    end.
Proof.
  intros Hadd Hupd Hapk Hsize Hfile Hbody Hplain Hc p w2.
  unfold handle_document. change (negb true) with false. cbv iota.
  rewrite Hadd, Hupd. simpl document. cbv iota.
  rewrite Hapk, Hsize. change (negb true) with false. cbv iota.
  unfold mkdtemp, write_temp. rewrite Hfile, Hbody, Hplain. cbv iota.
  change (load_apps ?x) with (config x). cbn [config with_temp_file]. rewrite Hc.
  subst w2 p. unfold mkdtemp. cbn [fst snd config with_temp_file apps default from_option id].
  rewrite ?Hc. reflexivity.
Qed.

Lemma staged_world w name body :
  let d := fresh (dom (tmp w)) in
  let w2 := with_temp_file d name body (mkdtemp w).2 in
  config w2 = config w /\ apks w2 = apks w /\ sent w2 = sent w /\
  read_temp (d, name) w2 = Some body /\ delete d (tmp w2) = tmp w.
Proof.
  intros d w2. split_and!; try reflexivity.
  - unfold read_temp, w2. cbn [tmp with_temp_file fst snd]. rewrite lookup_insert_eq.
    now rewrite bool_decide_eq_true_2.
  - unfold w2, d. release_fresh.
Qed.


Lemma staged_release w name body :
  rmtree (fresh (dom (tmp w))) (with_temp_file (fresh (dom (tmp w))) name body (mkdtemp w).2) = w.
Proof.
  destruct w as [c a t s]. unfold rmtree, with_temp_file, mkdtemp.
  cbn [fst snd config apks tmp sent]. apply world_eq.
  rewrite insert_insert_eq. apply delete_insert_id, not_elem_of_dom, is_fresh.
Qed.



(** X23: a package uploaded under a plain file name that matches no entry,
    or more than one, changes no file of the server: it waits in its
    staging directory with its name and version noted.  Each select button
    then runs the decision a single match would have run, on that
    candidate, and the cancel button leaves every file exactly as before
    the upload. *)
Theorem upload_without_single_match_waits (E : Env)
    (upd : Message -> UserData -> World -> UserData * World)
    (doc : Document) (ud : UserData) (w : World) (file_url : str) (body : bytes)
    (l : list AppRecord) :
  addapp_step ud = None -> updateapp_step ud = None ->
  endswith (lit ".apk") (str_lower E (doc_file_name doc)) = true ->
  (MAX_UPLOAD <? default 0 (doc_file_size doc)) = false ->
  tg_get_file E (doc_file_id doc) = Some file_url ->
  http_stream E false file_url = Some body ->
  plain_name (doc_file_name doc) = true ->
  config w = Some {| apps := Some l |} ->
  length (find_app_by_filename E (doc_file_name doc) l) <> 1%nat ->
  let new_ver := parse_version_from_apk E body in
  let p := (fresh (dom (tmp w)), doc_file_name doc) in
  let out := handle_document E upd true (doc_msg doc) ud w in
  out.1 = set_upload p (doc_file_name doc) new_ver ud /\
  config out.2 = config w /\ apks out.2 = apks w /\ sent out.2 = sent w /\
  read_temp p out.2 = Some body /\
  (forall i, handle_callback E true (CbSelect i) out.1 out.2 =
             default out (process_update E i p (doc_file_name doc) new_ver out.1 out.2)) /\
  handle_callback E true CbCancel out.1 out.2 = (cleared, w).
Proof.
  intros Hadd Hupd Hapk Hsize Hfile Hbody Hdoc Hc Hm new_ver p out.
  pose proof (handle_document_staged E upd doc ud w file_url body l
                Hadd Hupd Hapk Hsize Hfile Hbody Hdoc Hc) as Hd.
  cbv zeta in Hd. fold p new_ver in Hd.
  destruct (staged_world w (doc_file_name doc) body) as (Hc2 & Ha2 & Hs2 & Hr2 & Ht2).
  fold p in Hr2.
  assert (Hout : out = (set_upload p (doc_file_name doc) new_ver ud,
                        with_temp_file p.1 p.2 body (mkdtemp w).2)).
  { subst out. rewrite Hd.
    destruct (find_app_by_filename E (doc_file_name doc) l) as [|i [|j r]];
      [reflexivity | now destruct Hm | reflexivity]. }
  rewrite Hout. cbn [fst snd]. split_and!; try assumption; try reflexivity.
  - intros i. unfold handle_callback. change (negb true) with false. cbv iota.
    cbn [temp_apk_path file_name new_version set_upload].
    change (read_temp p (with_temp_file (fresh (dom (tmp w))) (doc_file_name doc) body (mkdtemp w).2))
      with (read_temp p (with_temp_file p.1 p.2 body (mkdtemp w).2)) in Hr2.
    now rewrite Hr2.
  - unfold handle_callback. change (negb true) with false. cbv iota.
    cbn [temp_apk_path set_upload]. f_equal. apply staged_release.
Qed.

Lemma upload_without_single_match_witness :
  let E := serving [x32] in
  let doc := {| doc_file_name := lit "app.apk"; doc_file_size := None;
                doc_file_id := lit "f" |} in
  let l := [store_app (lit "1.0"); titled (lit "app")] in
  let w := {| config := Some {| apps := Some l |}; apks := ∅; tmp := ∅; sent := [] |} in
  let out := handle_document E (fun _ ud w => (ud, w)) true (doc_msg doc) cleared w in
  find_app_by_filename E (lit "app.apk") l = [0%nat; 1%nat] /\
  temp_apk_path out.1 = Some (0%nat, lit "app.apk") /\
  apks out.2 = ∅ /\
  handle_callback E true CbCancel out.1 out.2 = (cleared, w).
Proof.
  intros E doc l w out.
  assert (Hm : find_app_by_filename E (lit "app.apk") l = [0%nat; 1%nat]) by reflexivity.
  split; [exact Hm|].
  destruct (upload_without_single_match_waits E (fun _ ud w => (ud, w)) doc cleared w
              (lit "https://api.telegram.org/file/f") [x32] l
              eq_refl eq_refl eq_refl eq_refl eq_refl eq_refl eq_refl eq_refl)
    as (H1 & _ & H2 & _ & _ & _ & H3).
  - change (length (find_app_by_filename E (lit "app.apk") l) <> 1%nat).
    rewrite Hm. discriminate.
  - cbv zeta in H1, H2, H3. subst out. rewrite H1, H2. split_and!; [reflexivity..|exact H3].
Defined.


